(** * The Plex target of autoscan: library resolution, scan dispatch,
      the version gate and configuration defaulting.

    A shallow embedding of [targets/plex/plex.go].  Go strings are byte
    sequences and are modelled by [string] (a list of 8-bit [ascii]);
    [int], [uint64] and [time.Duration] are modelled by [Z] with the
    wrap-around of the machine type written out where the code computes.
    The functions of Go's standard library that [plex.go] calls are
    modelled in modules named after their packages.  The address and
    redaction helpers of the web pages are embedded in module [web]. *)

From Stdlib Require Import ZArith List String Ascii Bool Lia SpecFloat.
From Stdlib Require Import DecimalString.
Import ListNotations.

Local Open Scope string_scope.
Local Open Scope Z_scope.

(** ** Machine integers *)

(** [uint64] arithmetic is arithmetic modulo [2^64]; [int64] (and [int]
    on the 64-bit platforms modelled here) is its two's complement
    reading. *)
Definition maxUint64 : Z := 2 ^ 64 - 1.
Definition maxInt64 : Z := 2 ^ 63 - 1.
Definition minInt64 : Z := - 2 ^ 63.

Definition wrapU64 (z : Z) : Z := z mod 2 ^ 64.
Definition wrapI64 (z : Z) : Z := (z + 2 ^ 63) mod 2 ^ 64 - 2 ^ 63.

Definition byteZ (c : ascii) : Z := Z.of_nat (nat_of_ascii c).

(** ** Error values *)

(** Package-level error variables, compared by identity:
    [autoscan.ErrFatal], [strconv.ErrSyntax] and [strconv.ErrRange]. *)
Inductive sentinel : Type := ErrFatal | ErrSyntax | ErrRange.

(** The [error] values that flow through the package.  The text of a
    message is kept symbolic, as its format and its operands.
    - [Errorf format args]: an error carrying only a message
      ([errors.New], or [fmt.Errorf] without [%w]);
    - [Wrapf format args e]: [fmt.Errorf] with one [%w] operand [e],
      which [Unwrap] returns;
    - [NumError]: [*strconv.NumError], which unwraps to its [Err]. *)
Inductive error : Type :=
| Sentinel (s : sentinel)
| Errorf (format : string) (args : list string)
| Wrapf (format : string) (args : list string) (wrapped : error)
| NumError (Func Num : string) (Err : error).

Definition sentinel_eqb (a c : sentinel) : bool :=
  match a, c with
  | ErrFatal, ErrFatal | ErrSyntax, ErrSyntax | ErrRange, ErrRange => true
  | _, _ => false
  end.

(** [errors.Is(err, target)] for a package-level [target]: follow the
    [Unwrap] chain of [err] until a value identical to [target]. *)
Fixpoint errors_Is (err : error) (target : sentinel) : bool :=
  match err with
  | Sentinel s => sentinel_eqb s target
  | Errorf _ _ => false
  | Wrapf _ _ e => errors_Is e target
  | NumError _ _ e => errors_Is e target
  end.

(** ** Package [strings] *)

Module strings.

(** [strings.HasPrefix(s, prefix)]: [len(s) >= len(prefix) &&
    s[:len(prefix)] == prefix], a byte-wise comparison. *)
Fixpoint HasPrefix (s prefix : string) {struct prefix} : bool :=
  match prefix with
  | EmptyString => true
  | String p prefix' =>
      match s with
      | EmptyString => false
      | String c s' => Ascii.eqb c p && HasPrefix s' prefix'
      end
  end.

(** [s[n:]] for [n <= len(s)]. *)
Fixpoint drop (n : nat) (s : string) : string :=
  match n, s with
  | O, _ => s
  | S n', String _ s' => drop n' s'
  | S _, EmptyString => EmptyString
  end.

(** [strings.TrimPrefix]: [s] without the leading [prefix], or [s]
    itself when it does not start with [prefix]. *)
Definition TrimPrefix (s prefix : string) : string :=
  if HasPrefix s prefix then drop (String.length prefix) s else s.

(** The UTF-8 encodings of the runes for which [unicode.IsSpace]
    holds: in Latin-1 the characters TAB, LF, VT, FF, CR, SPACE,
    U+0085 and U+00A0; beyond it the code points with the White_Space
    property, U+1680, U+2000..U+200A, U+2028, U+2029, U+202F, U+205F
    and U+3000. *)
Definition b (n : nat) : ascii := ascii_of_nat n.

Definition str (l : list nat) : string :=
  fold_right (fun n s => String (b n) s) EmptyString l.

Definition spaceRunes : list string :=
  map str
    [ [9]; [10]; [11]; [12]; [13]; [32];
      [194; 133]; [194; 160];
      [225; 154; 128];
      [226; 128; 128]; [226; 128; 129]; [226; 128; 130];
      [226; 128; 131]; [226; 128; 132]; [226; 128; 133];
      [226; 128; 134]; [226; 128; 135]; [226; 128; 136];
      [226; 128; 137]; [226; 128; 138];
      [226; 128; 168]; [226; 128; 169]; [226; 128; 175];
      [226; 129; 159];
      [227; 128; 128] ]%nat.

(** Byte length of the white-space rune [s] starts with, if any. *)
Definition leadingSpace (s : string) : option nat :=
  option_map String.length (find (HasPrefix s) spaceRunes).

(** [strings.TrimLeftFunc(s, unicode.IsSpace)].  [skip] counts the
    continuation bytes of a white-space rune still to be dropped. *)
Fixpoint trimLeft (skip : nat) (s : string) : string :=
  match s with
  | EmptyString => EmptyString
  | String _ s' =>
      match skip with
      | S k => trimLeft k s'
      | O =>
          match leadingSpace s with
          | Some n => trimLeft (Nat.pred n) s'
          | None => s
          end
      end
  end.

Fixpoint rev_acc (s acc : string) : string :=
  match s with
  | EmptyString => acc
  | String c s' => rev_acc s' (String c acc)
  end.

Definition rev (s : string) : string := rev_acc s EmptyString.

(** Byte length of the white-space rune [s] ends with, if any, read
    on the reversed string. *)
Definition trailingSpace (r : string) : option nat :=
  option_map String.length
    (find (fun w => HasPrefix r (rev w)) spaceRunes).

Fixpoint trimRightRev (skip : nat) (r : string) : string :=
  match r with
  | EmptyString => EmptyString
  | String _ r' =>
      match skip with
      | S k => trimRightRev k r'
      | O =>
          match trailingSpace r with
          | Some n => trimRightRev (Nat.pred n) r'
          | None => r
          end
      end
  end.

(** [strings.TrimSpace]: all leading and trailing white space, as
    defined by Unicode, removed. *)
Definition TrimSpace (s : string) : string :=
  rev (trimRightRev 0 (rev (trimLeft 0 s))).

(** [strings.Split(s, sep)] for a non-empty [sep]: the substrings
    between the occurrences of [sep], found left to right without
    overlap; one more element than there are occurrences.  [cur] is
    the piece being read and [skip] the bytes of a separator still to
    be passed over. *)
Fixpoint genSplit (sep : string) (skip : nat) (cur s : string)
  : list string :=
  match s with
  | EmptyString => [cur]
  | String c s' =>
      match skip with
      | S k => genSplit sep k cur s'
      | O =>
          if HasPrefix s sep
          then cur :: genSplit sep (Nat.pred (String.length sep)) EmptyString s'
          else genSplit sep 0 (cur ++ String c EmptyString) s'
      end
  end.

(** With an empty separator Go cuts after every UTF-8 sequence;
    [plex.go] only splits on ["."] and that case is left as the
    byte-wise cut. *)
Fixpoint explode (s : string) : list string :=
  match s with
  | EmptyString => []
  | String c s' => String c EmptyString :: explode s'
  end.

Definition Split (s sep : string) : list string :=
  match sep with
  | EmptyString => explode s
  | _ => genSplit sep 0 EmptyString s
  end.

(** [strings.Contains(s, substr)]: [substr] occurs somewhere in [s]. *)
Fixpoint Contains (s substr : string) : bool :=
  HasPrefix s substr
  || match s with
     | EmptyString => false
     | String _ s' => Contains s' substr
     end.

(** [strings.IndexByte(s, c)]: the index of the first [c] in [s], or
    [-1]. *)
Fixpoint IndexByte (s : string) (c : ascii) : Z :=
  match s with
  | EmptyString => -1
  | String d s' =>
      if Ascii.eqb d c then 0
      else let r := IndexByte s' c in if r <? 0 then -1 else r + 1
  end.

(** [strings.LastIndexByte(s, c)]: the index of the last [c] in [s], or
    [-1]. *)
Fixpoint LastIndexByte (s : string) (c : ascii) : Z :=
  match s with
  | EmptyString => -1
  | String d s' =>
      let r := LastIndexByte s' c in
      if 0 <=? r then r + 1 else if Ascii.eqb d c then 0 else -1
  end.

(** The slices [s[lo:hi]] and [s[lo:]], for indices within [s]. *)
Definition slice (s : string) (lo hi : Z) : string :=
  substring (Z.to_nat lo) (Z.to_nat (hi - lo)) s.

Definition from (s : string) (lo : Z) : string := drop (Z.to_nat lo) s.

Definition len (s : string) : Z := Z.of_nat (String.length s).

(** [strings.Join(elems, sep)]. *)
Fixpoint Join (elems : list string) (sep : string) : string :=
  match elems with
  | [] => EmptyString
  | [e] => e
  | e :: elems' => e ++ sep ++ Join elems' sep
  end.

Fixpoint hasByte (cutset : string) (c : ascii) : bool :=
  match cutset with
  | EmptyString => false
  | String d cutset' => Ascii.eqb d c || hasByte cutset' c
  end.

(** [strings.TrimLeft(s, cutset)] for a [cutset] of ASCII characters,
    for which Go compares byte by byte: the leading bytes of [s] that
    are in [cutset] removed. *)
Fixpoint TrimLeft (s cutset : string) : string :=
  match s with
  | EmptyString => EmptyString
  | String c s' => if hasByte cutset c then TrimLeft s' cutset else s
  end.

End strings.


(** ** Package [strconv] *)

Module strconv.

Definition syntaxError (fn str : string) : error :=
  NumError fn str (Sentinel ErrSyntax).

Definition rangeError (fn str : string) : error :=
  NumError fn str (Sentinel ErrRange).

Definition isDigit (c : ascii) : bool :=
  (48 <=? byteZ c) && (byteZ c <=? 57).

(** The loop of [ParseUint(s, 10, 64)].  In base 10 every byte that
    is not a decimal digit ends in the syntax error: a letter is a
    digit of value 10 or more, an underscore is only read in base 0.
    The range error is returned as soon as the digits read so far
    overflow, before the bytes that follow are looked at. *)
Fixpoint parseUintLoop (s0 : string) (n : Z) (s : string)
  : Z * option error :=
  match s with
  | EmptyString => (n, None)
  | String c s' =>
      if isDigit c then
        let d := byteZ c - 48 in
        if maxUint64 / 10 + 1 <=? n
        then (maxUint64, Some (rangeError "ParseUint" s0))
        else
          let n10 := wrapU64 (n * 10) in
          let n1 := wrapU64 (n10 + d) in
          if (n1 <? n10) || (maxUint64 <? n1)
          then (maxUint64, Some (rangeError "ParseUint" s0))
          else parseUintLoop s0 n1 s'
      else (0, Some (syntaxError "ParseUint" s0))
  end.

(** [ParseUint(s, 10, 0)]. *)
Definition ParseUint (s : string) : Z * option error :=
  match s with
  | EmptyString => (0, Some (syntaxError "ParseUint" s))
  | _ => parseUintLoop s 0 s
  end.

Definition isSome (e : option error) : bool :=
  match e with Some _ => true | None => false end.

Definition isRange (e : option error) : bool :=
  match e with
  | Some (NumError _ _ (Sentinel ErrRange)) => true
  | _ => false
  end.

(** [ParseInt(s, 10, 0)]. *)
Definition ParseInt (s : string) : Z * option error :=
  match s with
  | EmptyString => (0, Some (syntaxError "ParseInt" s))
  | String c s' =>
      let neg := Ascii.eqb c "-" in
      let body := if Ascii.eqb c "+" || Ascii.eqb c "-" then s' else s in
      let '(un, err) := ParseUint body in
      if isSome err && negb (isRange err)
      then (0, Some (syntaxError "ParseInt" s))
      else if negb neg && (2 ^ 63 <=? un)
      then (2 ^ 63 - 1, Some (rangeError "ParseInt" s))
      else if neg && (2 ^ 63 <? un)
      then (- 2 ^ 63, Some (rangeError "ParseInt" s))
      else
        let n := wrapI64 un in
        (if neg then wrapI64 (- n) else n, None)
  end.

(** The loop of the fast path of [Atoi]. *)
Fixpoint atoiLoop (s0 : string) (n : Z) (s : string) : Z * option error :=
  match s with
  | EmptyString => (n, None)
  | String c s' =>
      let ch := (byteZ c - 48) mod 256 in
      if 9 <? ch then (0, Some (syntaxError "Atoi" s0))
      else atoiLoop s0 (wrapI64 (n * 10 + ch)) s'
  end.

Definition setFunc (fn : string) (e : option error) : option error :=
  match e with
  | Some (NumError _ num err) => Some (NumError fn num err)
  | _ => e
  end.

(** [strconv.Atoi] where [int] has 64 bits: strings of 1 to 18 bytes
    go through the fast path, all others through [ParseInt]. *)
Definition Atoi (s : string) : Z * option error :=
  let sLen := Z.of_nat (String.length s) in
  if (0 <? sLen) && (sLen <? 19) then
    match s with
    | EmptyString => (0, None) (* no string of length 1 to 18 *)
    | String c s' =>
        let signed := Ascii.eqb c "-" || Ascii.eqb c "+" in
        let body := if signed then s' else s in
        if signed && (Z.of_nat (String.length body) <? 1)
        then (0, Some (syntaxError "Atoi" s))
        else
          let '(n, err) := atoiLoop s 0 body in
          match err with
          | Some _ => (n, err)
          | None => (if Ascii.eqb c "-" then wrapI64 (- n) else n, None)
          end
    end
  else
    let '(i64, err) := ParseInt s in
    (i64, setFunc "Atoi" err).

End strconv.

(** ** Package [time] *)

Module time.

(** A [Duration] is an [int64] count of nanoseconds. *)
Definition Duration : Type := Z.

Definition Nanosecond : Duration := 1.
Definition Microsecond : Duration := 1000 * Nanosecond.
Definition Millisecond : Duration := 1000 * Microsecond.
Definition Second : Duration := 1000 * Millisecond.
Definition Minute : Duration := 60 * Second.
Definition Hour : Duration := 60 * Minute.

(** The table [unitMap]; the two spellings of the micro sign are the
    UTF-8 encodings of U+00B5 and U+03BC. *)
Definition unitMap : list (string * Z) :=
  [ ("ns", Nanosecond); ("us", Microsecond);
    (strings.str [194; 181; 115]%nat, Microsecond);
    (strings.str [206; 188; 115]%nat, Microsecond);
    ("ms", Millisecond); ("s", Second); ("m", Minute); ("h", Hour) ].

Fixpoint lookup (u : string) (m : list (string * Z)) : option Z :=
  match m with
  | [] => None
  | (k, v) :: m' => if String.eqb k u then Some v else lookup u m'
  end.

Definition invalid (orig : string) : error :=
  Errorf "time: invalid duration %q" [orig].

(** [leadingInt]: the leading digits of [s] as a [uint64], and the
    rest of [s]; [None] is [errLeadingInt], the value exceeding
    [1<<63]. *)
Fixpoint leadingInt (x : Z) (s : string) : option (Z * string) :=
  match s with
  | EmptyString => Some (x, s)
  | String c s' =>
      if strconv.isDigit c then
        if 2 ^ 63 / 10 <? x then None
        else
          let x' := wrapU64 (wrapU64 (wrapU64 (x * 10) + byteZ c) - 48) in
          if 2 ^ 63 <? x' then None else leadingInt x' s'
      else Some (x, s)
  end.

(** [float64] operations, IEEE 754 binary64 with rounding to nearest
    even. *)
Definition float64 : Type := spec_float.

Definition float64_of_uint64 (z : Z) : float64 :=
  binary_normalize 53 1024 z 0 false.

Definition uint64_of_float64 (x : float64) : Z :=
  match x with
  | S754_finite false m e =>
      wrapU64 (if 0 <=? e then Z.pos m * 2 ^ e else Z.pos m / 2 ^ (- e))
  | _ => 0
  end.

(** [scale *= 10] on a [float64]: one rounding per kept digit.  The
    scale is the exact power of ten up to [10^22], a rounded product
    from there on, and the infinity past [10^308]; leading zeros are
    kept digits, so the scale is not bounded by the numerator. *)
Definition times10 (scale : float64) : float64 :=
  SFmul 53 1024 scale (float64_of_uint64 10).

(** [leadingFraction]: the leading digits of [s] as a numerator [x]
    and a [float64] [scale], ten to the number of digits kept, the
    digits from the first that does not fit any more being dropped,
    and the rest of [s]. *)
Fixpoint leadingFraction (x : Z) (scale : float64) (overflow : bool)
    (s : string) : Z * float64 * string :=
  match s with
  | EmptyString => (x, scale, s)
  | String c s' =>
      if strconv.isDigit c then
        if overflow then leadingFraction x scale true s'
        else if (2 ^ 63 - 1) / 10 <? x
        then leadingFraction x scale true s'
        else
          let y := wrapU64 (wrapU64 (wrapU64 (x * 10) + byteZ c) - 48) in
          if 2 ^ 63 <? y then leadingFraction x scale true s'
          else leadingFraction y (times10 scale) false s'
      else (x, scale, s)
  end.

(** The unit: the bytes up to the next ['.'] or digit. *)
Fixpoint unitOf (s : string) : string * string :=
  match s with
  | EmptyString => (EmptyString, s)
  | String c s' =>
      if Ascii.eqb c "." || strconv.isDigit c then (EmptyString, s)
      else let '(u, r) := unitOf s' in (String c u, r)
  end.

(** [uint64(float64(f) * (float64(unit) / scale))]. *)
Definition fraction (f unit : Z) (scale : float64) : Z :=
  uint64_of_float64
    (SFmul 53 1024 (float64_of_uint64 f)
       (SFdiv 53 1024 (float64_of_uint64 unit) scale)).

(** One turn of the main loop of [ParseDuration]: it reads one group
    off [s], digits, an optional point and more digits, and a unit, and
    returns the duration so far with what is left of [s], or the error
    the function returns. *)
Definition group (orig : string) (d : Z) (s : string)
  : (Z * string) + error :=
  match s with
  | EmptyString => inr (invalid orig)
  | String c _ =>
      if negb (Ascii.eqb c "." || strconv.isDigit c)
      then inr (invalid orig)
      else
        match leadingInt 0 s with
        | None => inr (invalid orig)
        | Some (v, s1) =>
            let pre := negb (String.length s =? String.length s1)%nat in
            let '(f, scale, s2, post) :=
              match s1 with
              | String c1 s1' =>
                  if Ascii.eqb c1 "." then
                    let '(f, scale, s2) := leadingFraction 0 (float64_of_uint64 1) false s1' in
                    (f, scale, s2,
                     negb (String.length s1' =? String.length s2)%nat)
                  else (0, float64_of_uint64 1, s1, false)
              | EmptyString => (0, float64_of_uint64 1, s1, false)
              end in
            if negb pre && negb post then inr (invalid orig)
            else
              let '(u, s3) := unitOf s2 in
              if String.eqb u ""
              then inr (Errorf "time: missing unit in duration %q" [orig])
              else
                match lookup u unitMap with
                | None =>
                    inr (Errorf "time: unknown unit %q in duration %q"
                           [u; orig])
                | Some unit =>
                    if 2 ^ 63 / unit <? v then inr (invalid orig)
                    else
                      let v1 := wrapU64 (v * unit) in
                      let v2 :=
                        if 0 <? f then wrapU64 (v1 + fraction f unit scale)
                        else v1 in
                      if (0 <? f) && (2 ^ 63 <? v2) then inr (invalid orig)
                      else
                        let d' := wrapU64 (d + v2) in
                        if 2 ^ 63 <? d' then inr (invalid orig)
                        else inl (d', s3)
                end
        end
  end.

(** The main loop of [ParseDuration], which runs while [s] is not
    empty.  Every turn consumes at least the unit, so [fuel] never runs
    out when it starts at the length of [s]. *)
Fixpoint groups (fuel : nat) (orig : string) (d : Z) (s : string)
  : Z * option error :=
  match s with
  | EmptyString => (d, None)
  | String _ _ =>
      match fuel with
      | O => (0, Some (invalid orig))
      | S fuel' =>
          match group orig d s with
          | inr e => (0, Some e)
          | inl (d', s') => groups fuel' orig d' s'
          end
      end
  end.

(** [time.ParseDuration]: an optional sign, then one or more groups;
    the string made of the digit zero alone is the zero duration. *)
Definition ParseDuration (s : string) : Duration * option error :=
  let '(neg, body) :=
    match s with
    | String c s' =>
        if Ascii.eqb c "-" || Ascii.eqb c "+"
        then (Ascii.eqb c "-", s') else (false, s)
    | EmptyString => (false, s)
    end in
  if String.eqb body "0" then (0, None)
  else if String.eqb body "" then (0, Some (invalid s))
  else
    let '(d, err) := groups (String.length body) s 0 body in
    match err with
    | Some _ => (0, err)
    | None =>
        if neg then (wrapI64 (- wrapI64 d), None)
        else if 2 ^ 63 - 1 <? d then (0, Some (invalid s))
        else (wrapI64 d, None)
    end.

End time.

(** ** Package [net] *)

Module net.

(** [*net.AddrError]; its text is the address and the reason. *)
Definition addrErr (addr why : string) : string * string * option error :=
  (EmptyString, EmptyString, Some (Errorf "address %s: %s" [addr; why])).

Definition missingPort : string := "missing port in address".
Definition tooManyColons : string := "too many colons in address".

Definition byteIs (s : string) (i : Z) (c : ascii) : bool :=
  match String.get (Z.to_nat i) s with
  | Some d => Ascii.eqb d c
  | None => false
  end.

(** The checks [SplitHostPort] ends with: no ['['] from index [j] on,
    no [']'] from index [k] on; the port is what follows the last
    colon, at index [i]. *)
Definition splitTail (hostport host : string) (i j k : Z)
  : string * string * option error :=
  if 0 <=? strings.IndexByte (strings.from hostport j) "["
  then addrErr hostport "unexpected '[' in address"
  else if 0 <=? strings.IndexByte (strings.from hostport k) "]"
  then addrErr hostport "unexpected ']' in address"
  else (host, strings.from hostport (i + 1), None).

(** [net.SplitHostPort]: host:port, [host]:port with the brackets
    dropped from the host, or an error. *)
Definition SplitHostPort (hostport : string)
  : string * string * option error :=
  let i := strings.LastIndexByte hostport ":" in
  if i <? 0 then addrErr hostport missingPort
  else if byteIs hostport 0 "[" then
    let end_ := strings.IndexByte hostport "]" in
    if end_ <? 0 then addrErr hostport "missing ']' in address"
    else if end_ + 1 =? strings.len hostport
    then addrErr hostport missingPort
    else if end_ + 1 =? i
    then splitTail hostport (strings.slice hostport 1 end_) i 1 (end_ + 1)
    else if byteIs hostport (end_ + 1) ":"
    then addrErr hostport tooManyColons
    else addrErr hostport missingPort
  else
    let host := strings.slice hostport 0 i in
    if 0 <=? strings.IndexByte host ":"
    then addrErr hostport tooManyColons
    else splitTail hostport host i 0 0.

End net.

(** ** Package [fmt] *)

(** The verb [%d] on an [int]: the decimal digits, after a minus sign
    for a negative number. *)
Definition fmt_d (n : Z) : string := NilZero.string_of_int (Z.to_int n).

(** ** The web pages *)

Module web.

Definition webUIPort : Z := 4040.

Definition webUIAddr (host : string) : string :=
  let baseHost :=
    if strings.Contains host ":" then
      match net.SplitHostPort host with
      | (parsed, _, None) => parsed
      | (_, _, Some _) => host
      end
    else host in
  let baseHost :=
    if strings.Contains baseHost ":" && negb (strings.HasPrefix baseHost "[")
    then "[" ++ baseHost ++ "]"
    else baseHost in
  baseHost ++ ":" ++ fmt_d webUIPort.

(** What [triggerBaseURL] reads of an [*http.Request]: the host the
    client asked for and whether the connection has a TLS state. *)
Inductive ConnectionState : Type := connectionState.

Record Request : Type :=
  { Host : string; TLS : option ConnectionState }.

Definition triggerBaseURL (r : Request) (port : Z) : string :=
  let host := Host r in
  let host :=
    match net.SplitHostPort host with
    | (parsed, _, None) => parsed
    | (_, _, Some _) => host
    end in
  let host :=
    if strings.Contains host ":" && negb (strings.HasPrefix host "[")
    then "[" ++ host ++ "]"
    else host in
  let scheme :=
    match TLS r with
    | Some _ => "https"
    | None => "http"
    end in
  scheme ++ "://" ++ host ++ ":" ++ fmt_d port.

Definition newline : string := String (ascii_of_nat 10) EmptyString.

Definition dquote : string := String (ascii_of_nat 34) EmptyString.

(** [redactLine]: the leading spaces of [line], the key, and the fixed
    value. *)
Definition redactLine (line key : string) : string :=
  let indent :=
    strings.slice line 0
      (strings.len line - strings.len (strings.TrimLeft line " ")) in
  indent ++ key ++ ": " ++ dquote ++ "REDACTED" ++ dquote.

(** The body of the loop of [redactConfig]: what becomes of one
    line. *)
Definition redactedLine (line : string) : string :=
  let trimmed := strings.TrimSpace line in
  if strings.HasPrefix trimmed "token:" then redactLine line "token"
  else if strings.HasPrefix trimmed "password:" then redactLine line "password"
  else if strings.HasPrefix trimmed "apiKey:" then redactLine line "apiKey"
  else line.

(** [redactConfig]: the loop replaces every element of [lines] by its
    redacted form, each from its own former value. *)
Definition redactConfig (raw : string) : string :=
  let lines := strings.Split raw newline in
  strings.Join (map redactedLine lines) newline.

End web.

(** ** The collaborators of the package *)

(** Modelled from the spec: the [library] struct is declared with the
    remote client, outside [plex.go], which reads its fields [ID],
    [Name] and [Path]; the identifier is opaque to this package. *)
Record library (I : Type) : Type :=
  { ID : I; Name : string; Path : string }.

Arguments ID {I} _.
Arguments Name {I} _.
Arguments Path {I} _.

Inductive Level : Type := TraceLevel | DebugLevel | InfoLevel | WarnLevel.

(** A [zerolog.Logger] is the verbosity it was made for and the fields
    of its context. *)
Inductive field : Type :=
| Str (key val : string)
| Err (e : error)
| Interface (key : string) (paths : list string).

Record Logger : Type :=
  { verbosity : string; context : list field }.

Definition GetLogger (v : string) : Logger :=
  {| verbosity := v; context := [] |}.

Definition With (l : Logger) (fs : list field) : Logger :=
  {| verbosity := verbosity l; context := context l ++ fs |}.

(** Modelled from the spec: the [apiClient] struct and [newAPIClient]
    are declared outside [plex.go]; the client is taken to be what
    [New] hands to its constructor. *)
Record apiClient : Type :=
  { baseURL : string;
    apiToken : string;
    apiLog : Logger;
    apiTimeout : time.Duration;
    product : string;
    clientIdentifier : string }.

Definition newAPIClient (u tok : string) (l : Logger) (timeout : time.Duration)
    (prod ident : string) : apiClient :=
  {| baseURL := u; apiToken := tok; apiLog := l; apiTimeout := timeout;
     product := prod; clientIdentifier := ident |}.

(** The fields of [net/url.URL] that matter here; [Host] is the host or
    host:port part of the URL. *)
Record url_URL : Type :=
  { Scheme : string; Host : string; UrlPath : string }.

(** [autoscan.Rewriter]. *)
Definition Rewriter : Type := string -> string.

(** What the package is linked against and talks to: the remote
    service behind the client, whose state is a [World] that every call
    may read and change; [autoscan.NewRewriter] with its rule type; and
    [net/url.Parse]. *)
Class Collaborators : Type :=
  { LibraryID : Type;
    RewriteRule : Type;
    World : Type;
    NewRewriter : list RewriteRule -> Rewriter * option error;
    url_Parse : string -> url_URL + error;
    api_Version : apiClient -> World -> (string * option error) * World;
    api_Libraries :
      apiClient -> World -> (list (library LibraryID) * option error) * World;
    api_Scan : apiClient -> string -> LibraryID -> World -> option error * World }.

(** ** Effects: the remote state and the trace of what was done *)

Section Effects.

Context {C : Collaborators}.

Inductive Event : Type :=
| Logged (l : Logger) (lvl : Level) (fs : list field) (msg : string)
| VersionCall (c : apiClient)
| LibrariesCall (c : apiClient)
| ScanCall (c : apiClient) (path : string) (id : LibraryID).

Record State : Type :=
  { remote : World; events : list Event }.

Definition M (A : Type) : Type := State -> A * State.

Definition ret {A : Type} (a : A) : M A := fun s => (a, s).

Definition bind {A B : Type} (m : M A) (k : A -> M B) : M B :=
  fun s => let '(a, s') := m s in k a s'.

Definition emit (e : Event) : M unit :=
  fun s => (tt, {| remote := remote s; events := events s ++ [e] |}).

Definition call {A : Type} (e : Event) (f : World -> A * World) : M A :=
  fun s =>
    let '(a, w) := f (remote s) in
    (a, {| remote := w; events := events s ++ [e] |}).

(** The three methods of the client. *)
Definition Version (api : apiClient) : M (string * option error) :=
  call (VersionCall api) (api_Version api).

Definition Libraries (api : apiClient)
  : M (list (library LibraryID) * option error) :=
  call (LibrariesCall api) (api_Libraries api).

Definition apiScan (api : apiClient) (path : string) (id : LibraryID)
  : M (option error) :=
  call (ScanCall api path id) (api_Scan api path id).

End Effects.

Declare Scope go_scope.
Delimit Scope go_scope with go.
Notation "x <- m ;; k" := (bind m (fun x => k))
  (at level 61, m at next level, right associativity) : go_scope.
Notation "m ;; k" := (bind m (fun _ => k))
  (at level 61, right associativity) : go_scope.

(** ** Package [plex] *)

Module autoscan.
(** Modelled from the spec: a scan event is the folder that changed;
    [plex.go] reads no other field of [autoscan.Scan]. *)
Record Scan : Type := { Folder : string }.
End autoscan.

Section Plex.

Context {C : Collaborators}.
Local Open Scope go_scope.

Record Config : Type :=
  { URL : string;
    Token : string;
    Rewrite : list RewriteRule;
    Verbosity : string;
    Timeout : string;
    Product : string;
    ClientIdentifier : string }.

Record target : Type :=
  { url : string;
    token : string;
    libraries : list (library LibraryID);
    log : Logger;
    rewrite : Rewriter;
    api : apiClient }.

Definition parseTimeout (raw : string) : time.Duration * option error :=
  if String.eqb (strings.TrimSpace raw) "" then (0, None)
  else
    let '(timeout, err) := time.ParseDuration raw in
    match err with
    | Some e => (0, Some (Wrapf "invalid plex timeout %q: %w" [raw] e))
    | None =>
        if timeout <=? 0
        then (0, Some (Errorf
                         "invalid plex timeout %q: must be greater than zero"
                         [raw]))
        else (timeout, None)
    end.

Definition defaultClientIdentifier (rawURL : string) : string :=
  match url_Parse rawURL with
  | inr _ => "autoscan"
  | inl parsed =>
      if String.eqb (Host parsed) "" then "autoscan"
      else
        let host := strings.TrimPrefix (Host parsed) "www." in
        if String.eqb host "" then "autoscan"
        else "autoscan-" ++ host
  end.

Definition isSupportedVersion (version : string) : bool :=
  match strings.Split version "." with
  | p0 :: p1 :: _ =>
      let major := fst (strconv.Atoi p0) in
      let minor := fst (strconv.Atoi p1) in
      if (2 <=? major) || ((major =? 1) && (20 <=? minor)) then true
      else false
  | _ => false
  end.

(** The loop of [getScanLibrary]: [libraries] grows by [append]. *)
Fixpoint matching (folder : string) (ls libs : list (library LibraryID))
  : list (library LibraryID) :=
  match ls with
  | [] => libs
  | l :: ls' =>
      matching folder ls'
        (if strings.HasPrefix folder (Path l) then libs ++ [l] else libs)
  end.

Definition getScanLibrary (t : target) (folder : string)
  : list (library LibraryID) * option error :=
  let libs := matching folder (libraries t) [] in
  if (List.length libs =? 0)%nat
  then ([], Some (Errorf "%v: failed determining libraries" [folder]))
  else (libs, None).

(** The loop of [Scan] over the resolved libraries. *)
Fixpoint sendScans (t : target) (scanFolder : string)
    (libs : list (library LibraryID)) : M (option error) :=
  match libs with
  | [] => ret None
  | lib :: libs' =>
      let l := With (log t) [Str "path" scanFolder; Str "library" (Name lib)] in
      emit (Logged l TraceLevel [] "Sending scan request") ;;
      err <- apiScan (api t) scanFolder (ID lib) ;;
      match err with
      | Some e => ret (Some e)
      | None =>
          emit (Logged l InfoLevel [] "Scan moved to target") ;;
          sendScans t scanFolder libs'
      end
  end.

Definition Scan (t : target) (scan : autoscan.Scan) : M (option error) :=
  let scanFolder := rewrite t (autoscan.Folder scan) in
  let '(libs, err) := getScanLibrary t scanFolder in
  match err with
  | Some e =>
      emit (Logged (log t) WarnLevel [Err e] "No target libraries found") ;;
      ret None
  | None => sendScans t scanFolder libs
  end.

Definition Available (t : target) : M (option error) :=
  r <- Version (api t) ;;
  ret (snd r).

Definition New (c : Config) : M (option target * option error) :=
  let l := With (GetLogger (Verbosity c))
             [Str "target" "plex"; Str "url" (URL c)] in
  let '(rewriter, err) := NewRewriter (Rewrite c) in
  match err with
  | Some e => ret (None, Some e)
  | None =>
      let '(timeout, err) := parseTimeout (Timeout c) in
      match err with
      | Some e => ret (None, Some e)
      | None =>
          let product :=
            if String.eqb (strings.TrimSpace (Product c)) ""
            then "autoscan" else Product c in
          let clientIdentifier :=
            if String.eqb (strings.TrimSpace (ClientIdentifier c)) ""
            then defaultClientIdentifier (URL c)
            else ClientIdentifier c in
          let api :=
            newAPIClient (URL c) (Token c) l timeout product
              clientIdentifier in
          r <- Version api ;;
          let '(version, err) := r in
          match err with
          | Some e => ret (None, Some e)
          | None =>
              emit (Logged l DebugLevel [] ("Plex version: " ++ version)) ;;
              if negb (isSupportedVersion version)
              then ret (None,
                        Some (Wrapf "plex running unsupported version %s: %w"
                                [version] (Sentinel ErrFatal)))
              else
                r <- Libraries api ;;
                let '(libraries, err) := r in
                match err with
                | Some e => ret (None, Some e)
                | None =>
                    emit (Logged l DebugLevel
                            [Interface "libraries" (map Path libraries)]
                            "Retrieved libraries") ;;
                    ret (Some {| url := URL c;
                                 token := Token c;
                                 libraries := libraries;
                                 log := l;
                                 rewrite := rewriter;
                                 api := api |},
                         None)
                end
          end
      end
  end.

End Plex.

(** ** A concrete remote service

    One instance of the collaborators, on which the theorems below are
    exercised: library identifiers are integers, the remote answers
    with a fixed version and catalog and refuses the scan of the
    libraries listed in [failing]; rewrite rules replace a path prefix;
    URLs of the shape scheme://authority/path are cut at the
    separators. *)

Module Demo.

Record world : Type :=
  { version : string;
    catalog : list (library Z);
    failing : list Z;
    served : nat }.

Definition unavailable : error := Errorf "503 Service Unavailable" [].

Definition scan (_ : apiClient) (_ : string) (id : Z) (w : world)
  : option error * world :=
  (if existsb (Z.eqb id) (failing w) then Some unavailable else None,
   {| version := version w; catalog := catalog w; failing := failing w;
      served := S (served w) |}).

Fixpoint applyRules (rules : list (string * string)) (p : string) : string :=
  match rules with
  | [] => p
  | (from, to) :: rules' =>
      if strings.HasPrefix p from
      then to ++ strings.drop (String.length from) p
      else applyRules rules' p
  end.

Fixpoint hasControl (s : string) : bool :=
  match s with
  | EmptyString => false
  | String c s' => (byteZ c <? 32) || (byteZ c =? 127) || hasControl s'
  end.

Definition parseURL (raw : string) : url_URL + error :=
  if hasControl raw
  then inr (Errorf "net/url: invalid control character in URL" [])
  else
    match strings.Split raw "://" with
    | [scheme; rest] =>
        match strings.Split rest "/" with
        | authority :: _ =>
            inl {| Scheme := scheme; Host := authority;
                   UrlPath := strings.drop (String.length authority) rest |}
        | [] => inl {| Scheme := scheme; Host := ""; UrlPath := "" |}
        end
    | _ => inl {| Scheme := ""; Host := ""; UrlPath := raw |}
    end.

#[export] Instance service : Collaborators :=
  {| LibraryID := Z;
     RewriteRule := string * string;
     World := world;
     NewRewriter := fun rules => (applyRules rules, None);
     url_Parse := parseURL;
     api_Version := fun _ w => ((version w, None), w);
     api_Libraries := fun _ w => ((catalog w, None), w);
     api_Scan := scan |}.

Definition movies : library Z := {| ID := 1; Name := "Movies"; Path := "/data/movies" |}.
Definition tv : library Z := {| ID := 2; Name := "TV"; Path := "/data/tv" |}.
Definition mov : library Z := {| ID := 3; Name := "Mov"; Path := "/media/Mov" |}.
Definition everything : library Z := {| ID := 4; Name := "All"; Path := "" |}.
Definition data : library Z := {| ID := 5; Name := "Data"; Path := "/data" |}.

Definition client : apiClient :=
  newAPIClient "http://plex:32400" "secret" (GetLogger "") 0 "autoscan" "autoscan-plex:32400".

Definition mkTarget (libs : list (library Z)) : target :=
  {| url := "http://plex:32400"; token := "secret"; libraries := libs;
     log := GetLogger ""; rewrite := fun p => p; api := client |}.

Definition mkWorld (v : string) (libs : list (library Z)) (bad : list Z) : world :=
  {| version := v; catalog := libs; failing := bad; served := 0 |}.

Definition start (w : world) : State := {| remote := w; events := [] |}.

Definition config (u timeout prod ident : string) : Config :=
  {| URL := u; Token := "secret"; Rewrite := []; Verbosity := "";
     Timeout := timeout; Product := prod; ClientIdentifier := ident |}.

Definition inception : string := "/data/movies/Inception (2010)".

Definition shelf : list (library Z) := [movies; data; tv; everything].

Definition old : world := mkWorld "1.19.9" [movies; tv] [].

Definition current : world := mkWorld "1.32.5" [movies; tv] [].

Definition cfg : Config := config "https://www.example.com:32400" "5s" "" "".

Definition newline : string := String (ascii_of_nat 10) "".

Definition blanks : string := String (ascii_of_nat 9) "  ".

End Demo.

(** ** A remote service that can fail

    A second instance of the collaborators, whose state holds the
    answers the remote gives to the version query and to the catalog
    query, errors included. *)

Module Scripted.

Record world : Type :=
  { versionAnswer : string * option error;
    catalogAnswer : list (library Z) * option error }.

#[export] Instance service : Collaborators :=
  {| LibraryID := Z;
     RewriteRule := string * string;
     World := world;
     NewRewriter := fun rules => (Demo.applyRules rules, None);
     url_Parse := Demo.parseURL;
     api_Version := fun _ w => (versionAnswer w, w);
     api_Libraries := fun _ w => (catalogAnswer w, w);
     api_Scan := fun _ _ _ w => (None, w) |}.

Definition refused : error := Errorf "401 Unauthorized" [].

Definition noVersion : world :=
  {| versionAnswer := ("", Some refused); catalogAnswer := ([], None) |}.

Definition noCatalog : world :=
  {| versionAnswer := ("1.32.5", None);
     catalogAnswer := ([], Some refused) |}.

Definition cfg : Config :=
  {| URL := "http://plex:32400"; Token := "secret"; Rewrite := [];
     Verbosity := ""; Timeout := ""; Product := ""; ClientIdentifier := "" |}.

Definition start (w : world) : State := {| remote := w; events := [] |}.

End Scripted.

(** ** Texts and hosts to try the web pages on *)

Module Samples.

Definition tab : string := String (ascii_of_nat 9) EmptyString.

Definition config : string :=
  "plex:" ++ web.newline
  ++ "  - url: http://plex:32400" ++ web.newline
  ++ "    token: abc".

Definition harmless : string :=
  "port: 3030" ++ web.newline ++ "host: example.com".

Definition blockScalar : string :=
  "password: |" ++ web.newline ++ "  hunter2".

End Samples.

(** ** Vocabulary of the specification *)

Section Vocabulary.

Context {C : Collaborators}.

(** The remote scan triggers in a trace, in the order they were
    issued: the path and the library of each. *)
Definition triggers (evs : list Event) : list (string * LibraryID) :=
  flat_map (fun e => match e with
                     | ScanCall _ p i => [(p, i)]
                     | _ => []
                     end) evs.

(** The scan triggers for [libs], issued one after the other from the
    remote state [w], all succeed and leave the remote in the state
    returned. *)
Fixpoint allSucceed (cl : apiClient) (F : string)
    (libs : list (library LibraryID)) (w : World) : option World :=
  match libs with
  | [] => Some w
  | L :: libs' =>
      match api_Scan cl F (ID L) w with
      | (None, w') => allSucceed cl F libs' w'
      | (Some _, _) => None
      end
  end.

(** The libraries of the catalog whose path [F] starts with, in
    catalog order. *)
Definition resolved (t : target) (F : string) : list (library LibraryID) :=
  filter (fun l => strings.HasPrefix F (Path l)) (libraries t).

(** A string made of white space only: a sequence of white-space
    runes, none when the string is empty. *)
Inductive Blank : string -> Prop :=
| Blank_empty : Blank ""
| Blank_space (w s : string) :
    In w strings.spaceRunes -> Blank s -> Blank (w ++ s).

(** The logger, the product and the client identifier [New] settles
    on, and the client it makes of them. *)
Definition loggerOf (c : Config) : Logger :=
  With (GetLogger (Verbosity c)) [Str "target" "plex"; Str "url" (URL c)].

Definition productOf (c : Config) : string :=
  if String.eqb (strings.TrimSpace (Product c)) "" then "autoscan"
  else Product c.

Definition identifierOf (c : Config) : string :=
  if String.eqb (strings.TrimSpace (ClientIdentifier c)) ""
  then defaultClientIdentifier (URL c)
  else ClientIdentifier c.

Definition clientOf (c : Config) (timeout : time.Duration) : apiClient :=
  newAPIClient (URL c) (Token c) (loggerOf c) timeout (productOf c)
    (identifierOf c).

Definition setProduct (c : Config) (p : string) : Config :=
  {| URL := URL c; Token := Token c; Rewrite := Rewrite c;
     Verbosity := Verbosity c; Timeout := Timeout c; Product := p;
     ClientIdentifier := ClientIdentifier c |}.

Definition setClientIdentifier (c : Config) (i : string) : Config :=
  {| URL := URL c; Token := Token c; Rewrite := Rewrite c;
     Verbosity := Verbosity c; Timeout := Timeout c; Product := Product c;
     ClientIdentifier := i |}.

Definition setTimeout (c : Config) (raw : string) : Config :=
  {| URL := URL c; Token := Token c; Rewrite := Rewrite c;
     Verbosity := Verbosity c; Timeout := raw; Product := Product c;
     ClientIdentifier := ClientIdentifier c |}.

End Vocabulary.

(** *** The trace of a scan, lines and addresses *)

Section VocabularyMore.

Context {C : Collaborators}.

(** What [Scan] may add to the trace: log lines, and scan calls made
    through the client of the target for the folder at hand. *)
Definition scanEvent (t : target) (F : string) (ev : Event) : Prop :=
  match ev with
  | Logged _ _ _ _ => True
  | ScanCall c p _ => c = api t /\ p = F
  | VersionCall _ | LibrariesCall _ => False
  end.

End VocabularyMore.

(** The line feed. *)
Definition lf : ascii := ascii_of_nat 10.

(** The separator made of one byte. *)
Definition sep1 (c : ascii) : string := String c EmptyString.

(** [n] spaces. *)
Fixpoint spaces (n : nat) : string :=
  match n with
  | O => EmptyString
  | S n' => String " " (spaces n')
  end.

(** The bytes a white-space rune can start with. *)
Definition isLead (c : ascii) : bool :=
  existsb (fun w => match w with
                    | String d _ => Ascii.eqb d c
                    | EmptyString => false
                    end) strings.spaceRunes.

Definition noLead (k : string) : bool :=
  negb (existsb isLead (list_ascii_of_string k)).

(** The keys [redactConfig] looks for and what it puts after them. *)
Definition keys : list string := ["token"; "password"; "apiKey"].

Definition mask : string := ": " ++ web.dquote ++ "REDACTED" ++ web.dquote.

(** A string without colon or bracket, as host names, IPv4 addresses
    and port numbers are. *)
Definition plain (s : string) : bool :=
  negb (strings.hasByte s ":" || strings.hasByte s "[" || strings.hasByte s "]").

(** A string without bracket. *)
Definition bracketFree (s : string) : bool :=
  negb (strings.hasByte s "[" || strings.hasByte s "]").

(** *** Reading a version component as an integer *)

Module Numeral.

(** The sign a component starts with and what follows it. *)
Definition signOf (s : string) : bool * string :=
  match s with
  | String c r =>
      if Ascii.eqb c "-" then (true, r)
      else if Ascii.eqb c "+" then (false, r)
      else (false, s)
  | EmptyString => (false, s)
  end.

Fixpoint allDigits (s : string) : bool :=
  match s with
  | EmptyString => true
  | String c s' => strconv.isDigit c && allDigits s'
  end.

Fixpoint leadingDigits (s : string) : string :=
  match s with
  | EmptyString => EmptyString
  | String c s' =>
      if strconv.isDigit c then String c (leadingDigits s') else EmptyString
  end.

(** The number a string of decimal digits denotes, read after the
    digits of [acc]. *)
Fixpoint digitsValue (acc : Z) (s : string) : Z :=
  match s with
  | EmptyString => acc
  | String c s' => digitsValue (acc * 10 + (byteZ c - 48)) s'
  end.

(** A component is numeric when it is an optional sign followed by
    one decimal digit or more. *)
Definition numeric (s : string) : bool :=
  let '(_, body) := signOf s in
  negb (String.eqb body "") && allDigits body.

Definition value (s : string) : Z :=
  let '(neg, body) := signOf s in
  if neg then - digitsValue 0 body else digitsValue 0 body.

(** The reading of the specification: the integer a numeric component
    denotes, and 0 for every other component. *)
Definition bestEffort (s : string) : Z :=
  if numeric s then value s else 0.

(** A component overflows early when the digits it starts with, after
    the sign, already denote more than [2^64 - 1]. *)
Definition overflowsEarly (s : string) : bool :=
  let '(_, body) := signOf s in
  maxUint64 <? digitsValue 0 (leadingDigits body).

(** The reading of the code: as [bestEffort], but a component that is
    not numeric and overflows early reads as the bound of [int64] on
    the side of its sign. *)
Definition bestEffortClamped (s : string) : Z :=
  if numeric s then value s
  else if overflowsEarly s
       then (if fst (signOf s) then minInt64 else maxInt64)
       else 0.

Definition clamp (z : Z) : Z := Z.max minInt64 (Z.min maxInt64 z).

(** The floor: version 1.20. *)
Definition accepts (major minor : Z) : bool :=
  (2 <=? major) || ((major =? 1) && (20 <=? minor)).

(** The version check as the specification words it. *)
Definition supportedAsStated (version : string) : bool :=
  match strings.Split version "." with
  | p0 :: p1 :: _ => accepts (bestEffort p0) (bestEffort p1)
  | _ => false
  end.

End Numeral.

(** ** Strings *)

Lemma HasPrefix_app (p rest : string) : strings.HasPrefix (p ++ rest) p = true.
Proof.
  induction p as [|c p IH]; simpl; [reflexivity|].
  now rewrite Ascii.eqb_refl.
Qed.

Lemma HasPrefix_split (s p : string) :
  strings.HasPrefix s p = true <-> exists rest, s = p ++ rest.
Proof.
  split.
  - revert s; induction p as [|c p IH]; intros s H; simpl in *.
    + now exists s.
    + destruct s as [|d s]; [discriminate|].
      apply andb_true_iff in H as [Hc Hp].
      apply Ascii.eqb_eq in Hc; subst d.
      destruct (IH _ Hp) as [rest ->]. now exists rest.
  - intros [rest ->]. apply HasPrefix_app.
Qed.

Lemma HasPrefix_substring (s p : string) :
  strings.HasPrefix s p = true <-> substring 0 (String.length p) s = p.
Proof.
  revert s; induction p as [|c p IH]; intros s; simpl.
  - split; [|reflexivity]. intros _. now destruct s.
  - destruct s as [|d s]; simpl.
    + split; discriminate.
    + rewrite andb_true_iff, Ascii.eqb_eq, IH. split.
      * intros [-> ->]. reflexivity.
      * intros H. inversion H as [[Hd Hs]]. rewrite Hs. now split.
Qed.

Lemma HasPrefix_empty (s : string) : strings.HasPrefix s "" = true.
Proof. reflexivity. Qed.

(** ** The library resolver *)

Section Resolver.

Context {C : Collaborators}.

Lemma matching_filter (F : string) (ls acc : list (library LibraryID)) :
  matching F ls acc
  = (acc ++ filter (fun l => strings.HasPrefix F (Path l)) ls)%list.
Proof.
  revert acc; induction ls as [|l ls IH]; intros acc; simpl.
  - now rewrite app_nil_r.
  - rewrite IH. destruct (strings.HasPrefix F (Path l)); [|reflexivity].
    now rewrite <- app_assoc.
Qed.

(** What [getScanLibrary] returns first is the catalog filtered, in
    catalog order; the error reports that nothing was kept. *)
Lemma getScanLibrary_resolved (t : target) (F : string) :
  fst (getScanLibrary t F) = resolved t F
  /\ (snd (getScanLibrary t F) = None <-> resolved t F <> []).
Proof.
  unfold getScanLibrary, resolved. rewrite matching_filter; simpl.
  destruct (filter _ (libraries t)) as [|l ls]; simpl.
  - split; [reflexivity|]. split; [discriminate|congruence].
  - split; [reflexivity|]. split; [discriminate|reflexivity].
Qed.

Lemma In_resolved (t : target) (F : string) (L : library LibraryID) :
  In L (resolved t F)
  <-> In L (libraries t) /\ strings.HasPrefix F (Path L) = true.
Proof. unfold resolved. apply filter_In. Qed.

(** C1: a library of the catalog is among the libraries a folder
    resolves to exactly when the folder starts with the library's path
    as a raw string: the first bytes of the folder, as many as the
    path has, are the path.  Nothing is asked of the byte that
    follows, so a library rooted at /media/Mov is returned for the
    folder /media/Movies2/x. *)
Theorem getScanLibrary_literal_prefix
    (t : target) (F : string) (L : library LibraryID)
    (HL : In L (libraries t)) :
  (In L (fst (getScanLibrary t F))
   <-> substring 0 (String.length (Path L)) F = Path L)
  /\ (Path L = "/media/Mov" ->
      In L (fst (getScanLibrary t "/media/Movies2/x"))).
Proof.
  split.
  - rewrite (proj1 (getScanLibrary_resolved t F)), In_resolved.
    rewrite <- HasPrefix_substring. tauto.
  - intros HP.
    rewrite (proj1 (getScanLibrary_resolved t _)), In_resolved.
    split; [exact HL|]. now rewrite HP.
Qed.

(** C8, as amended: a folder resolves to a library exactly when the
    library is in the catalog and the library's path is a literal
    string prefix of the folder, the folder being the path followed
    by any bytes at all. *)
Theorem getScanLibrary_path_prefix_of_folder
    (t : target) (F : string) (L : library LibraryID) :
  In L (fst (getScanLibrary t F))
  <-> In L (libraries t) /\ exists rest, F = Path L ++ rest.
Proof.
  rewrite (proj1 (getScanLibrary_resolved t F)), In_resolved.
  now rewrite HasPrefix_split.
Qed.

End Resolver.

(** ** The scan dispatcher *)

Section Dispatcher.

Context {C : Collaborators}.

Lemma triggers_app (a c : list Event) :
  triggers (a ++ c) = (triggers a ++ triggers c)%list.
Proof. apply flat_map_app. Qed.

(** One turn of the loop of [Scan] whose trigger succeeds. *)
Lemma sendScans_step_ok (t : target) (F : string) (L : library LibraryID)
    (libs : list (library LibraryID)) (st : State) (w : World) :
  api_Scan (api t) F (ID L) (remote st) = (None, w) ->
  exists st',
    sendScans t F (L :: libs) st = sendScans t F libs st'
    /\ remote st' = w
    /\ triggers (events st') = (triggers (events st) ++ [(F, ID L)])%list.
Proof.
  intros Hs. eexists. split; [|split].
  - simpl. unfold bind, emit, apiScan, call; simpl. rewrite Hs. reflexivity.
  - reflexivity.
  - simpl. rewrite !triggers_app; simpl. now rewrite !app_nil_r.
Qed.

(** One turn of the loop of [Scan] whose trigger fails. *)
Lemma sendScans_step_fail (t : target) (F : string) (L : library LibraryID)
    (libs : list (library LibraryID)) (st : State) (e : error) (w : World) :
  api_Scan (api t) F (ID L) (remote st) = (Some e, w) ->
  fst (sendScans t F (L :: libs) st) = Some e
  /\ remote (snd (sendScans t F (L :: libs) st)) = w
  /\ triggers (events (snd (sendScans t F (L :: libs) st)))
     = (triggers (events st) ++ [(F, ID L)])%list.
Proof.
  intros Hs. simpl. unfold bind, emit, apiScan, call; simpl. rewrite Hs.
  simpl. repeat split. rewrite !triggers_app; simpl. now rewrite app_nil_r.
Qed.

Lemma sendScans_stops (t : target) (F : string)
    (pre : list (library LibraryID)) (L : library LibraryID)
    (post : list (library LibraryID)) :
  forall (st : State) (w1 w2 : World) (e : error),
    allSucceed (api t) F pre (remote st) = Some w1 ->
    api_Scan (api t) F (ID L) w1 = (Some e, w2) ->
    fst (sendScans t F (pre ++ L :: post) st) = Some e
    /\ remote (snd (sendScans t F (pre ++ L :: post) st)) = w2
    /\ triggers (events (snd (sendScans t F (pre ++ L :: post) st)))
       = (triggers (events st)
          ++ map (fun l => (F, ID l)) (pre ++ [L]))%list.
Proof.
  induction pre as [|P pre IH]; intros st w1 w2 e Hpre HL.
  - simpl in Hpre. injection Hpre as <-.
    exact (sendScans_step_fail t F L post st e w2 HL).
  - simpl in Hpre.
    destruct (api_Scan (api t) F (ID P) (remote st)) as [[e'|] w'] eqn:HP;
      [discriminate|].
    destruct (sendScans_step_ok t F P (pre ++ L :: post) st w' HP)
      as (st' & Heq & Hw & Htr).
    rewrite <- app_comm_cons, Heq.
    rewrite <- Hw in Hpre.
    destruct (IH st' w1 w2 e Hpre HL) as (H1 & H2 & H3).
    repeat split; [exact H1|exact H2|].
    rewrite H3, Htr, <- app_assoc. reflexivity.
Qed.

Lemma sendScans_all (t : target) (F : string)
    (libs : list (library LibraryID)) :
  forall (st : State) (w' : World),
    allSucceed (api t) F libs (remote st) = Some w' ->
    fst (sendScans t F libs st) = None
    /\ remote (snd (sendScans t F libs st)) = w'
    /\ triggers (events (snd (sendScans t F libs st)))
       = (triggers (events st) ++ map (fun l => (F, ID l)) libs)%list.
Proof.
  induction libs as [|P libs IH]; intros st w' Hall.
  - simpl in *. injection Hall as <-. now rewrite app_nil_r.
  - simpl in Hall.
    destruct (api_Scan (api t) F (ID P) (remote st)) as [[e'|] w1] eqn:HP;
      [discriminate|].
    destruct (sendScans_step_ok t F P libs st w1 HP) as (st' & Heq & Hw & Htr).
    rewrite Heq. rewrite <- Hw in Hall.
    destruct (IH st' w' Hall) as (H1 & H2 & H3).
    repeat split; [exact H1|exact H2|].
    rewrite H3, Htr, <- app_assoc. reflexivity.
Qed.

(** The loop only adds to the trace. *)
Lemma sendScans_extends (t : target) (F : string)
    (libs : list (library LibraryID)) :
  forall st : State,
    exists more,
      events (snd (sendScans t F libs st)) = (events st ++ more)%list.
Proof.
  induction libs as [|P libs IH]; intros st.
  - exists []. simpl. now rewrite app_nil_r.
  - destruct (api_Scan (api t) F (ID P) (remote st)) as [[e|] w] eqn:HP.
    + eexists. simpl. unfold bind, emit, apiScan, call; simpl. rewrite HP.
      simpl. rewrite <- app_assoc. reflexivity.
    + destruct (sendScans_step_ok t F P libs st w HP) as (st' & Heq & _ & _).
      revert Heq. simpl. unfold bind, emit, apiScan, call; simpl.
      rewrite HP. intros _.
      match goal with |- context [sendScans t F libs ?s] =>
        destruct (IH s) as [more Hmore]; rewrite Hmore end.
      simpl. eexists. rewrite <- !app_assoc. reflexivity.
Qed.

(** Once the triggers before a library have succeeded, its own
    trigger is issued, whatever happens next. *)
Lemma sendScans_reaches (t : target) (F : string)
    (pre : list (library LibraryID)) (L : library LibraryID)
    (post : list (library LibraryID)) :
  forall (st : State) (w1 : World),
    allSucceed (api t) F pre (remote st) = Some w1 ->
    In (F, ID L)
      (triggers (events (snd (sendScans t F (pre ++ L :: post) st)))).
Proof.
  induction pre as [|P pre IH]; intros st w1 Hpre.
  - change ([] ++ L :: post)%list with (L :: post).
    destruct (api_Scan (api t) F (ID L) (remote st)) as [[e|] w] eqn:HL.
    + destruct (sendScans_step_fail t F L post st e w HL) as (_ & _ & ->).
      apply in_or_app. right. now left.
    + destruct (sendScans_step_ok t F L post st w HL) as (st' & -> & _ & Htr).
      destruct (sendScans_extends t F post st') as [more ->].
      rewrite triggers_app, Htr.
      apply in_or_app. left. apply in_or_app. right. now left.
  - simpl in Hpre.
    destruct (api_Scan (api t) F (ID P) (remote st)) as [[e'|] w'] eqn:HP;
      [discriminate|].
    destruct (sendScans_step_ok t F P (pre ++ L :: post) st w' HP)
      as (st' & Heq & Hw & _).
    rewrite <- app_comm_cons, Heq. rewrite <- Hw in Hpre.
    exact (IH st' w1 Hpre).
Qed.

(** [Scan] is the loop over the resolved libraries when there are
    some, and a warning otherwise. *)
Lemma Scan_unfold (t : target) (scan : autoscan.Scan) (st : State) :
  let F := rewrite t (autoscan.Folder scan) in
  (resolved t F <> [] -> Scan t scan st = sendScans t F (resolved t F) st)
  /\ (resolved t F = [] ->
      exists e,
        Scan t scan st
        = (None, {| remote := remote st;
                    events := events st
                              ++ [Logged (log t) WarnLevel [Err e]
                                    "No target libraries found"] |})).
Proof.
  intros F. unfold Scan. fold F.
  destruct (getScanLibrary_resolved t F) as [Hfst Hsnd].
  destruct (getScanLibrary t F) as [libs err]; simpl in *. subst libs.
  split; intros HR.
  - destruct err as [e|]; [|reflexivity].
    apply Hsnd in HR. discriminate.
  - destruct err as [e|].
    + exists e. reflexivity.
    + exfalso. now apply (proj1 Hsnd).
Qed.

(** C2: the libraries the rewritten folder resolves to are the
    matching ones in catalog order, and [Scan] triggers them in that
    order.  If the triggers of the first libraries succeed and the
    next one fails, [Scan] returns the error of that call, and the
    triggers issued are those up to and including the failed one,
    none for the libraries after it.  If all succeed, every library
    was triggered once, in order, and [Scan] returns no error. *)
Theorem Scan_triggers_in_order_until_failure
    (t : target) (scan : autoscan.Scan) (st : State) :
  let F := rewrite t (autoscan.Folder scan) in
  let libs := fst (getScanLibrary t F) in
  let out := Scan t scan st in
  libs = filter (fun l => strings.HasPrefix F (Path l)) (libraries t)
  /\ (forall pre L post w1 e w2,
        libs = (pre ++ L :: post)%list ->
        allSucceed (api t) F pre (remote st) = Some w1 ->
        api_Scan (api t) F (ID L) w1 = (Some e, w2) ->
        fst out = Some e
        /\ remote (snd out) = w2
        /\ triggers (events (snd out))
           = (triggers (events st)
              ++ map (fun l => (F, ID l)) (pre ++ [L]))%list)
  /\ (forall w',
        allSucceed (api t) F libs (remote st) = Some w' ->
        fst out = None
        /\ remote (snd out) = w'
        /\ triggers (events (snd out))
           = (triggers (events st) ++ map (fun l => (F, ID l)) libs)%list).
Proof.
  intros F libs out. subst libs out.
  destruct (getScanLibrary_resolved t F) as [Hfst _]. rewrite Hfst.
  destruct (Scan_unfold t scan st) as [Hsome Hnone]. fold F in Hsome, Hnone.
  split; [reflexivity|]. split.
  - intros pre L post w1 e w2 Hlibs Hpre HL.
    rewrite Hsome by (rewrite Hlibs; now destruct pre).
    rewrite Hlibs. now apply (sendScans_stops t F pre L post st w1 w2 e).
  - intros w' Hall.
    destruct (resolved t F) as [|P ps] eqn:HR.
    + destruct (Hnone eq_refl) as [e ->]. simpl in *.
      injection Hall as <-.
      rewrite triggers_app; simpl. now rewrite !app_nil_r.
    + rewrite Hsome by discriminate.
      now apply sendScans_all.
Qed.

(** C4: when the rewritten folder starts with the path of no library
    of the catalog, as is the case when the catalog is empty, [Scan]
    returns no error, leaves the remote as it was and issues no call:
    the trace only grows by the warning. *)
Theorem Scan_no_match_is_success
    (t : target) (scan : autoscan.Scan) (st : State)
    (Hnone : forall L, In L (libraries t) ->
             strings.HasPrefix (rewrite t (autoscan.Folder scan)) (Path L)
             = false) :
  fst (Scan t scan st) = None
  /\ remote (snd (Scan t scan st)) = remote st
  /\ triggers (events (snd (Scan t scan st))) = triggers (events st)
  /\ exists e,
      events (snd (Scan t scan st))
      = (events st
         ++ [Logged (log t) WarnLevel [Err e] "No target libraries found"])%list.
Proof.
  assert (HR : resolved t (rewrite t (autoscan.Folder scan)) = []).
  { unfold resolved.
    induction (libraries t) as [|l ls IH]; [reflexivity|]. simpl.
    rewrite (Hnone l) by now left.
    apply IH. intros L HL. apply Hnone. now right. }
  destruct (Scan_unfold t scan st) as [_ H].
  destruct (H HR) as [e ->]. simpl.
  repeat split.
  - rewrite triggers_app; simpl. now rewrite app_nil_r.
  - now exists e.
Qed.

(** C10, as amended: a library of the catalog whose path is empty is
    among the libraries every folder resolves to, the empty folder
    included, so no [Scan] ends in the no-match warning; and every
    [Scan] in which the triggers of the libraries resolved before it
    succeed issues a trigger for it. *)
Theorem empty_path_library_always_resolved
    (t : target) (L : library LibraryID)
    (HL : In L (libraries t)) (HP : Path L = "") :
  (forall F, In L (fst (getScanLibrary t F))
             /\ snd (getScanLibrary t F) = None)
  /\ In L (fst (getScanLibrary t ""))
  /\ (forall scan st pre post w1,
        let F := rewrite t (autoscan.Folder scan) in
        fst (getScanLibrary t F) = (pre ++ L :: post)%list ->
        allSucceed (api t) F pre (remote st) = Some w1 ->
        In (F, ID L) (triggers (events (snd (Scan t scan st))))).
Proof.
  assert (Hin : forall F, In L (resolved t F)).
  { intros F. apply In_resolved. split; [exact HL|]. now rewrite HP. }
  split; [|split].
  - intros F. destruct (getScanLibrary_resolved t F) as [Hfst Hsnd].
    rewrite Hfst. split; [apply Hin|].
    apply Hsnd. intros Hnil. specialize (Hin F). now rewrite Hnil in Hin.
  - rewrite (proj1 (getScanLibrary_resolved t "")). apply Hin.
  - intros scan st pre post w1 F Hlibs Hpre.
    rewrite (proj1 (getScanLibrary_resolved t F)) in Hlibs.
    destruct (Scan_unfold t scan st) as [Hsome _]. fold F in Hsome.
    rewrite Hsome by (rewrite Hlibs; now destruct pre).
    rewrite Hlibs. exact (sendScans_reaches t F pre L post st w1 Hpre).
Qed.

End Dispatcher.

(** ** The version gate *)

Module AtoiFacts.

Import Numeral.

Lemma byteZ_range (c : ascii) : 0 <= byteZ c < 256.
Proof.
  unfold byteZ. pose proof (nat_ascii_bounded c). lia.
Qed.

Lemma isDigit_range (c : ascii) :
  strconv.isDigit c = true <-> 0 <= byteZ c - 48 <= 9.
Proof.
  unfold strconv.isDigit. rewrite andb_true_iff, !Z.leb_le. lia.
Qed.

Lemma isDigit_false (c : ascii) :
  strconv.isDigit c = false <-> byteZ c < 48 \/ 57 < byteZ c.
Proof.
  unfold strconv.isDigit. rewrite andb_false_iff, !Z.leb_gt. lia.
Qed.

Lemma allDigits_leading (s : string) :
  allDigits s = true -> leadingDigits s = s.
Proof.
  induction s as [|c s IH]; simpl; [reflexivity|].
  intros H. apply andb_true_iff in H as [Hc Hs].
  rewrite Hc. now rewrite IH.
Qed.

Lemma leadingDigits_allDigits (s : string) : allDigits (leadingDigits s) = true.
Proof.
  induction s as [|c s IH]; simpl; [reflexivity|].
  destruct (strconv.isDigit c) eqn:Hc; simpl; [|reflexivity].
  now rewrite Hc.
Qed.

Lemma leadingDigits_length (s : string) :
  (String.length (leadingDigits s) <= String.length s)%nat.
Proof.
  induction s as [|c s IH]; simpl; [lia|].
  destruct (strconv.isDigit c); simpl; lia.
Qed.

(** Reading more digits never lowers the value. *)
Lemma digitsValue_ge (s : string) :
  forall acc, 0 <= acc -> allDigits s = true -> acc <= digitsValue acc s.
Proof.
  induction s as [|c s IH]; intros acc Hacc Hs; simpl in *; [lia|].
  apply andb_true_iff in Hs as [Hc Hs]. apply isDigit_range in Hc.
  specialize (IH (acc * 10 + (byteZ c - 48)) ltac:(lia) Hs). lia.
Qed.

(** [k] digits after [acc] stay below [(acc + 1) * 10^k]. *)
Lemma digitsValue_lt (s : string) :
  forall acc, 0 <= acc -> allDigits s = true ->
    digitsValue acc s < (acc + 1) * 10 ^ Z.of_nat (String.length s).
Proof.
  induction s as [|c s IH]; intros acc Hacc Hs; simpl String.length.
  - simpl. lia.
  - simpl in Hs. apply andb_true_iff in Hs as [Hc Hs].
    apply isDigit_range in Hc.
    rewrite Nat2Z.inj_succ, Z.pow_succ_r by lia. simpl digitsValue.
    specialize (IH (acc * 10 + (byteZ c - 48)) ltac:(lia) Hs).
    assert (0 < 10 ^ Z.of_nat (String.length s)) by (apply Z.pow_pos_nonneg; lia).
    nia.
Qed.

Lemma wrapU64_small (z : Z) : 0 <= z <= maxUint64 -> wrapU64 z = z.
Proof.
  unfold wrapU64, maxUint64. intros H. apply Z.mod_small.
  change (2 ^ 64) with 18446744073709551616 in *. lia.
Qed.

Lemma wrapU64_once (z : Z) :
  maxUint64 < z < 2 * 2 ^ 64 -> wrapU64 z = z - 2 ^ 64.
Proof.
  unfold wrapU64, maxUint64. intros H.
  change (2 ^ 64) with 18446744073709551616 in *.
  symmetry. apply (Z.mod_unique z _ 1); lia.
Qed.

Lemma wrapI64_small (z : Z) : minInt64 <= z <= maxInt64 -> wrapI64 z = z.
Proof.
  unfold wrapI64, minInt64, maxInt64. intros H.
  change (2 ^ 63) with 9223372036854775808 in *.
  change (2 ^ 64) with 18446744073709551616.
  rewrite Z.mod_small; lia.
Qed.

Lemma wrapI64_top : wrapI64 (2 ^ 63) = minInt64.
Proof. reflexivity. Qed.

(** The loop of [ParseUint]: the range error as soon as the leading
    digits exceed [uint64], else the value of an all-digit string,
    else the syntax error. *)
Lemma parseUintLoop_spec (s0 s : string) :
  forall n, 0 <= n <= maxUint64 ->
    strconv.parseUintLoop s0 n s
    = if maxUint64 <? digitsValue n (leadingDigits s)
      then (maxUint64, Some (strconv.rangeError "ParseUint" s0))
      else if allDigits s then (digitsValue n s, None)
           else (0, Some (strconv.syntaxError "ParseUint" s0)).
Proof.
  induction s as [|c s IH]; intros n Hn.
  - simpl. destruct (Z.ltb_spec maxUint64 n); [lia|reflexivity].
  - simpl. destruct (strconv.isDigit c) eqn:Hc.
    + pose proof (proj1 (isDigit_range c) Hc) as Hd.
      simpl.
      pose proof (digitsValue_ge (leadingDigits s)
                    (n * 10 + (byteZ c - 48)) ltac:(lia)
                    (leadingDigits_allDigits s)) as Hge.
      assert (Hmax : maxUint64 = 18446744073709551615) by reflexivity.
      destruct (Z.leb_spec 1844674407370955162 n) as [Hbig|Hsmall].
      * destruct (Z.ltb_spec maxUint64
                    (digitsValue (n * 10 + (byteZ c - 48)) (leadingDigits s)));
          [reflexivity|lia].
      * rewrite (wrapU64_small (n * 10)) by lia.
        destruct (Z_le_gt_dec (n * 10 + (byteZ c - 48)) maxUint64) as [Hfit|Hover].
        -- rewrite (wrapU64_small (n * 10 + (byteZ c - 48))) by lia.
           destruct (Z.ltb_spec (n * 10 + (byteZ c - 48)) (n * 10)); [lia|].
           destruct (Z.ltb_spec maxUint64 (n * 10 + (byteZ c - 48))); [lia|].
           simpl. apply IH. lia.
        -- rewrite (wrapU64_once (n * 10 + (byteZ c - 48)))
             by (change (2 ^ 64) with 18446744073709551616; lia).
           change (2 ^ 64) with 18446744073709551616.
           destruct (Z.ltb_spec (n * 10 + (byteZ c - 48) - 18446744073709551616)
                       (n * 10)); [|lia].
           simpl.
           destruct (Z.ltb_spec maxUint64
                       (digitsValue (n * 10 + (byteZ c - 48)) (leadingDigits s)));
             [reflexivity|lia].
    + simpl. destruct (Z.ltb_spec maxUint64 n); [lia|reflexivity].
Qed.

Ltac pow_consts :=
  change (2 ^ 63) with 9223372036854775808 in *;
  change (2 ^ 64) with 18446744073709551616 in *.

Ltac bounds :=
  unfold clamp, minInt64, maxInt64, maxUint64 in *; pow_consts.

Lemma ParseUint_nonempty (s : string) :
  s <> "" -> strconv.ParseUint s = strconv.parseUintLoop s 0 s.
Proof. destruct s; [congruence|reflexivity]. Qed.

(** What [ParseInt] does once the sign is set apart. *)
Lemma ParseInt_tail (s0 s body : string) (neg : bool) :
  signOf s = (neg, body) ->
  fst (let '(un, err) := strconv.ParseUint body in
       if strconv.isSome err && negb (strconv.isRange err)
       then (0, Some (strconv.syntaxError "ParseInt" s0))
       else if negb neg && (2 ^ 63 <=? un)
       then (2 ^ 63 - 1, Some (strconv.rangeError "ParseInt" s0))
       else if neg && (2 ^ 63 <? un)
       then (- 2 ^ 63, Some (strconv.rangeError "ParseInt" s0))
       else
         let n := wrapI64 un in
         (if neg then wrapI64 (- n) else n, None))
  = clamp (bestEffortClamped s).
Proof.
  intros Hsign.
  unfold bestEffortClamped, numeric, value, overflowsEarly.
  rewrite Hsign. cbn [fst].
  destruct (String.eqb_spec body "") as [->|Hne].
  - reflexivity.
  - cbn [negb]. rewrite andb_true_l.
    rewrite (ParseUint_nonempty body Hne).
    rewrite parseUintLoop_spec by (unfold maxUint64; simpl; lia).
    pose proof (digitsValue_ge (leadingDigits body) 0 ltac:(lia)
                  (leadingDigits_allDigits body)) as Hpos.
    destruct (allDigits body) eqn:Hall.
    + rewrite (allDigits_leading body Hall) in *.
      destruct (Z.ltb_spec maxUint64 (digitsValue 0 body)) as [Hov|Hfit].
      * cbn [strconv.isSome strconv.isRange strconv.rangeError andb negb].
        assert (Hle : (2 ^ 63 <=? maxUint64) = true) by reflexivity.
        assert (Hlt : (2 ^ 63 <? maxUint64) = true) by reflexivity.
        rewrite Hle, Hlt.
        destruct neg; cbn [andb negb fst]; bounds; lia.
      * cbn [strconv.isSome andb negb].
        destruct neg; cbn [andb negb].
        -- destruct (Z.ltb_spec (2 ^ 63) (digitsValue 0 body)) as [Hb|Hs];
             cbn [fst].
           ++ bounds. lia.
           ++ destruct (Z.eq_dec (digitsValue 0 body) (2 ^ 63)) as [->|Hlt].
              ** reflexivity.
              ** rewrite (wrapI64_small (digitsValue 0 body))
                   by (bounds; lia).
                 rewrite wrapI64_small by (bounds; lia).
                 bounds. lia.
        -- destruct (Z.leb_spec (2 ^ 63) (digitsValue 0 body)) as [Hb|Hs];
             cbn [fst].
           ++ bounds. lia.
           ++ rewrite wrapI64_small by (bounds; lia).
              bounds. lia.
    + destruct (Z.ltb_spec maxUint64 (digitsValue 0 (leadingDigits body)))
        as [Hov|Hfit].
      * cbn [strconv.isSome strconv.isRange strconv.rangeError andb negb].
        assert (Hle : (2 ^ 63 <=? maxUint64) = true) by reflexivity.
        assert (Hlt : (2 ^ 63 <? maxUint64) = true) by reflexivity.
        rewrite Hle, Hlt.
        destruct neg; reflexivity.
      * reflexivity.
Qed.

Lemma ParseInt_value (s : string) :
  fst (strconv.ParseInt s) = clamp (bestEffortClamped s).
Proof.
  destruct s as [|c s'].
  - reflexivity.
  - unfold strconv.ParseInt.
    apply ParseInt_tail. unfold signOf.
    destruct (Ascii.eqb c "-") eqn:Hm.
    + now rewrite orb_true_r.
    + rewrite orb_false_r. now destruct (Ascii.eqb c "+").
Qed.

Lemma pow10_le (k : nat) : (k <= 18)%nat -> 10 ^ Z.of_nat k <= 10 ^ 18.
Proof. intros H. apply Z.pow_le_mono_r; lia. Qed.

(** The fast path of [Atoi] never overflows: at most 18 digits. *)
Lemma atoiLoop_spec (s0 body : string) :
  forall n, 0 <= n ->
    (n + 1) * 10 ^ Z.of_nat (String.length body) <= 10 ^ 18 ->
    strconv.atoiLoop s0 n body
    = if allDigits body then (digitsValue n body, None)
      else (0, Some (strconv.syntaxError "Atoi" s0)).
Proof.
  induction body as [|c body IH]; intros n Hn Hb; [reflexivity|].
  cbn [strconv.atoiLoop allDigits digitsValue].
  pose proof (byteZ_range c) as Hc.
  cbn [String.length] in Hb.
  rewrite Nat2Z.inj_succ, Z.pow_succ_r in Hb by lia.
  assert (Hp : 0 < 10 ^ Z.of_nat (String.length body))
    by (apply Z.pow_pos_nonneg; lia).
  change (10 ^ 18) with 1000000000000000000 in *.
  destruct (strconv.isDigit c) eqn:Hd.
  - apply isDigit_range in Hd.
    rewrite (Z.mod_small (byteZ c - 48) 256) by lia.
    destruct (Z.ltb_spec 9 (byteZ c - 48)); [lia|].
    rewrite wrapI64_small by (bounds; nia).
    cbn [andb]. apply IH; nia.
  - apply isDigit_false in Hd. cbn [andb].
    destruct (Z.ltb_spec 9 ((byteZ c - 48) mod 256)) as [_|Hle];
      [reflexivity|].
    exfalso. revert Hle. Z.div_mod_to_equations. lia.
Qed.

Lemma fast_path (s0 s body : string) (neg : bool) :
  signOf s = (neg, body) ->
  body <> "" ->
  (String.length body <= 18)%nat ->
  fst (let '(n, err) := strconv.atoiLoop s0 0 body in
       match err with
       | Some _ => (n, err)
       | None => (if neg then wrapI64 (- n) else n, None)
       end)
  = clamp (bestEffortClamped s).
Proof.
  intros Hsign Hne Hlen.
  unfold bestEffortClamped, numeric, value, overflowsEarly.
  rewrite Hsign. cbn [fst].
  destruct (String.eqb_spec body "") as [->|_]; [congruence|].
  cbn [negb]. rewrite andb_true_l.
  pose proof (pow10_le _ Hlen) as Hpow.
  rewrite atoiLoop_spec by lia.
  destruct (allDigits body) eqn:Hall.
  - pose proof (digitsValue_lt body 0 ltac:(lia) Hall) as Hlt.
    pose proof (digitsValue_ge body 0 ltac:(lia) Hall) as Hge.
    change (10 ^ 18) with 1000000000000000000 in *.
    destruct neg; cbn [fst].
    + rewrite wrapI64_small by (bounds; lia). bounds. lia.
    + bounds. lia.
  - pose proof (digitsValue_lt (leadingDigits body) 0 ltac:(lia)
                  (leadingDigits_allDigits body)) as Hlt.
    pose proof (leadingDigits_length body) as Hll.
    pose proof (pow10_le (String.length (leadingDigits body)) ltac:(lia))
      as Hpow'.
    change (10 ^ 18) with 1000000000000000000 in *.
    destruct (Z.ltb_spec maxUint64 (digitsValue 0 (leadingDigits body)));
      [unfold maxUint64 in *; pow_consts; lia|].
    reflexivity.
Qed.

(** [Atoi], its error dropped: the value of a numeric string clamped
    to [int64], the bound of [int64] for a string that overflows
    early, and 0 for every other string. *)
Lemma Atoi_value (s : string) :
  fst (strconv.Atoi s) = clamp (bestEffortClamped s).
Proof.
  unfold strconv.Atoi.
  destruct ((0 <? Z.of_nat (String.length s))
            && (Z.of_nat (String.length s) <? 19)) eqn:Hfast.
  - apply andb_true_iff in Hfast as [H0 H19].
    apply Z.ltb_lt in H0, H19.
    destruct s as [|c s']; [reflexivity|].
    cbn [String.length] in H19.
    destruct (Ascii.eqb c "-") eqn:Hm; [|destruct (Ascii.eqb c "+") eqn:Hp];
      cbn [orb andb].
    + destruct (Z.ltb_spec (Z.of_nat (String.length s')) 1) as [Hemp|Hsome].
      * destruct s'; [|cbn [String.length] in Hemp; lia].
        unfold bestEffortClamped, numeric, value, overflowsEarly, signOf.
        rewrite Hm. reflexivity.
      * apply (fast_path _ (String c s') s' true).
        -- unfold signOf. now rewrite Hm.
        -- destruct s'; [cbn [String.length] in Hsome; lia|discriminate].
        -- lia.
    + destruct (Z.ltb_spec (Z.of_nat (String.length s')) 1) as [Hemp|Hsome].
      * destruct s'; [|cbn [String.length] in Hemp; lia].
        unfold bestEffortClamped, numeric, value, overflowsEarly, signOf.
        rewrite Hm, Hp. reflexivity.
      * apply (fast_path _ (String c s') s' false).
        -- unfold signOf. now rewrite Hm, Hp.
        -- destruct s'; [cbn [String.length] in Hsome; lia|discriminate].
        -- lia.
    + apply (fast_path _ (String c s') (String c s') false).
      * unfold signOf. now rewrite Hm, Hp.
      * discriminate.
      * cbn [String.length]. lia.
  - destruct (strconv.ParseInt s) as [i64 err] eqn:HP.
    cbn [fst]. rewrite <- (ParseInt_value s), HP. reflexivity.
Qed.

(** Clamping to [int64] does not move a number across the floor. *)
Lemma accepts_clamp (a c : Z) : accepts (clamp a) (clamp c) = accepts a c.
Proof.
  unfold accepts.
  bounds. lia.
Qed.

End AtoiFacts.

Section VersionGate.

Import Numeral.

Lemma isSupportedVersion_accepts (version : string) :
  isSupportedVersion version
  = match strings.Split version "." with
    | p0 :: p1 :: _ => accepts (bestEffortClamped p0) (bestEffortClamped p1)
    | _ => false
    end.
Proof.
  unfold isSupportedVersion.
  destruct (strings.Split version ".") as [|p0 [|p1 rest]];
    [reflexivity|reflexivity|].
  rewrite !AtoiFacts.Atoi_value. cbv zeta.
  change ((if accepts (clamp (bestEffortClamped p0))
                (clamp (bestEffortClamped p1))
           then true else false)
          = accepts (bestEffortClamped p0) (bestEffortClamped p1)).
  rewrite AtoiFacts.accepts_clamp.
  now destruct (accepts _ _).
Qed.

(** C3, as amended: a version is accepted exactly when cutting it at
    every ["."] gives two components or more and, reading the first
    two as integers, major is at least 2, or major is 1 and minor at
    least 20.  A numeric component reads as its value; any other
    component reads as 0, except that one whose leading digits, after
    an optional sign, already exceed [2^64 - 1] reads as the bound of
    [int64] on the side of its sign.  So 2.0.0 and 1.20.0 are
    supported; 1.19.9, 1 and abc.def are not. *)
Theorem isSupportedVersion_floor :
  (forall version,
      isSupportedVersion version = true
      <-> exists p0 p1 rest,
          strings.Split version "." = p0 :: p1 :: rest
          /\ (2 <= bestEffortClamped p0
              \/ (bestEffortClamped p0 = 1 /\ 20 <= bestEffortClamped p1)))
  /\ isSupportedVersion "2.0.0" = true
  /\ isSupportedVersion "1.20.0" = true
  /\ isSupportedVersion "1.19.9" = false
  /\ isSupportedVersion "1" = false
  /\ isSupportedVersion "abc.def" = false
  /\ strings.Split "abc.def" "." = ["abc"; "def"]
  /\ strconv.Atoi "abc" = (0, Some (strconv.syntaxError "Atoi" "abc")).
Proof.
  split; [|repeat split; reflexivity].
  intros version. rewrite isSupportedVersion_accepts.
  destruct (strings.Split version ".") as [|p0 [|p1 rest]].
  - split; [discriminate|]. intros (? & ? & ? & H & _). discriminate.
  - split; [discriminate|]. intros (? & ? & ? & H & _). discriminate.
  - unfold accepts.
    rewrite orb_true_iff, andb_true_iff, !Z.leb_le, Z.eqb_eq. split.
    + intros H. now exists p0, p1, rest.
    + intros (q0 & q1 & r & Heq & H). now inversion Heq; subst.
Qed.

(** Where the reading of the specification and that of the code
    agree: on every component that is numeric or does not overflow
    early. *)
Lemma bestEffortClamped_bestEffort (s : string) :
  numeric s || negb (overflowsEarly s) = true ->
  bestEffortClamped s = bestEffort s.
Proof.
  unfold bestEffortClamped, bestEffort.
  destruct (numeric s); [reflexivity|]. simpl.
  now destruct (overflowsEarly s).
Qed.

Lemma isSupportedVersion_as_stated_without_early_overflow
    (version p0 p1 : string) (rest : list string) :
  strings.Split version "." = p0 :: p1 :: rest ->
  numeric p0 || negb (overflowsEarly p0) = true ->
  numeric p1 || negb (overflowsEarly p1) = true ->
  isSupportedVersion version = supportedAsStated version.
Proof.
  intros Hsplit H0 H1.
  rewrite isSupportedVersion_accepts. unfold supportedAsStated.
  rewrite Hsplit.
  now rewrite (bestEffortClamped_bestEffort p0 H0),
    (bestEffortClamped_bestEffort p1 H1).
Qed.

(** C3, as stated, fails: the major component below is not numeric,
    so the version is unsupported by the wording, but [Atoi] gives up
    with the range error at its twentieth digit and the code reads
    the largest [int]. *)
Lemma isSupportedVersion_not_as_stated :
  isSupportedVersion "99999999999999999999x.0" = true
  /\ supportedAsStated "99999999999999999999x.0" = false
  /\ numeric "99999999999999999999x" = false
  /\ strconv.Atoi "99999999999999999999x"
     = (maxInt64,
        Some (strconv.rangeError "Atoi" "99999999999999999999x")).
Proof. repeat split; reflexivity. Qed.

End VersionGate.

(** ** White space *)

Module SpaceFacts.

Import strings.

Lemma append_empty_r (s : string) : s ++ "" = s.
Proof. induction s as [|c s IH]; simpl; congruence. Qed.

Lemma append_assoc (a c d : string) : (a ++ c) ++ d = a ++ (c ++ d).
Proof. induction a as [|x a IH]; simpl; congruence. Qed.

Lemma length_append (a c : string) :
  String.length (a ++ c) = (String.length a + String.length c)%nat.
Proof. induction a as [|x a IH]; simpl; congruence. Qed.

Lemma rev_acc_append (s acc : string) : rev_acc s acc = rev s ++ acc.
Proof.
  unfold rev. revert acc.
  induction s as [|c s IH]; intros acc; simpl; [reflexivity|].
  rewrite (IH (String c acc)), (IH (String c "")), append_assoc.
  reflexivity.
Qed.

Lemma rev_cons (c : ascii) (s : string) : rev (String c s) = rev s ++ String c "".
Proof. unfold rev at 1. simpl. apply rev_acc_append. Qed.

Lemma rev_append (a c : string) : rev (a ++ c) = rev c ++ rev a.
Proof.
  induction a as [|x a IH]; simpl.
  - now rewrite append_empty_r.
  - now rewrite !rev_cons, IH, append_assoc.
Qed.

Lemma rev_involutive (s : string) : rev (rev s) = s.
Proof.
  induction s as [|c s IH]; [reflexivity|].
  now rewrite rev_cons, rev_append, IH.
Qed.

Lemma rev_length (s : string) : String.length (rev s) = String.length s.
Proof.
  induction s as [|c s IH]; [reflexivity|].
  rewrite rev_cons, length_append, IH. simpl. lia.
Qed.

Lemma rev_empty (s : string) : rev s = "" -> s = "".
Proof.
  intros H. apply (f_equal String.length) in H.
  rewrite rev_length in H. now destruct s.
Qed.

Lemma spaceRunes_nonempty (w : string) : In w spaceRunes -> w <> "".
Proof.
  intros H. unfold spaceRunes in H. simpl in H.
  repeat (destruct H as [<-|H]; [discriminate|]). contradiction.
Qed.

Lemma Blank_app (a c : string) : Blank a -> Blank c -> Blank (a ++ c).
Proof.
  induction 1 as [|w s Hw Hs IH]; intros Hc; [exact Hc|].
  rewrite append_assoc. apply Blank_space; auto.
Qed.

Lemma Blank_rune (w : string) : In w spaceRunes -> Blank w.
Proof.
  intros H. rewrite <- (append_empty_r w).
  apply Blank_space; [exact H|constructor].
Qed.

(** Passing over the continuation bytes of a rune. *)
Lemma trimLeft_skip (x rest : string) :
  trimLeft (String.length x) (x ++ rest) = trimLeft 0 rest.
Proof. induction x as [|c x IH]; simpl; [reflexivity|exact IH]. Qed.

Lemma trimRightRev_skip (x rest : string) :
  trimRightRev (String.length x) (x ++ rest) = trimRightRev 0 rest.
Proof. induction x as [|c x IH]; simpl; [reflexivity|exact IH]. Qed.

(** One step of the left trim. *)
Lemma trimLeft_step (s : string) :
  s <> "" ->
  (leadingSpace s = None /\ trimLeft 0 s = s)
  \/ (exists w rest,
        In w spaceRunes /\ s = w ++ rest /\ trimLeft 0 s = trimLeft 0 rest).
Proof.
  intros Hne. destruct s as [|c s']; [congruence|].
  unfold trimLeft; fold trimLeft. unfold leadingSpace.
  destruct (find (HasPrefix (String c s')) spaceRunes) as [w|] eqn:Hf.
  - right. apply find_some in Hf as [Hin Hpre].
    apply HasPrefix_split in Hpre as [rest Heq].
    exists w, rest. split; [exact Hin|]. split; [exact Heq|].
    pose proof (spaceRunes_nonempty w Hin) as Hw.
    destruct w as [|d w']; [congruence|].
    simpl in Heq. injection Heq as -> ->.
    simpl. apply trimLeft_skip.
  - left. split; reflexivity.
Qed.

Lemma trimRightRev_step (r : string) :
  r <> "" ->
  (trailingSpace r = None /\ trimRightRev 0 r = r)
  \/ (exists w rest,
        In w spaceRunes /\ r = rev w ++ rest
        /\ trimRightRev 0 r = trimRightRev 0 rest).
Proof.
  intros Hne. destruct r as [|c r']; [congruence|].
  unfold trimRightRev; fold trimRightRev. unfold trailingSpace.
  destruct (find (fun w => HasPrefix (String c r') (rev w)) spaceRunes)
    as [w|] eqn:Hf.
  - right. apply find_some in Hf as [Hin Hpre].
    apply HasPrefix_split in Hpre as [rest Heq].
    exists w, rest. split; [exact Hin|]. split; [exact Heq|].
    pose proof (spaceRunes_nonempty w Hin) as Hw.
    assert (Hlen : String.length w = String.length (rev w))
      by now rewrite rev_length.
    simpl option_map. rewrite Hlen.
    destruct (rev w) as [|d w'] eqn:Hrev.
    + apply rev_empty in Hrev. congruence.
    + simpl in Heq. injection Heq as -> ->.
      simpl. apply trimRightRev_skip.
  - left. split; reflexivity.
Qed.

(** The left trim removes a blank prefix and nothing else. *)
Lemma trimLeft_blank_prefix (n : nat) :
  forall s, (String.length s <= n)%nat ->
    exists pre, Blank pre /\ s = pre ++ trimLeft 0 s.
Proof.
  induction n as [|n IH]; intros s Hlen.
  - destruct s; [|simpl in Hlen; lia]. exists "". split; [constructor|reflexivity].
  - destruct (String.eqb_spec s "") as [->|Hne].
    + exists "". split; [constructor|reflexivity].
    + destruct (trimLeft_step s Hne) as [[_ Heq]|(w & rest & Hin & Hs & Heq)].
      * exists "". split; [constructor|]. now rewrite Heq.
      * assert (Hrest : (String.length rest <= n)%nat).
        { pose proof (spaceRunes_nonempty w Hin).
          rewrite Hs, length_append in Hlen. destruct w; [congruence|].
          simpl in Hlen. lia. }
        destruct (IH rest Hrest) as (pre & Hpre & Hr).
        exists (w ++ pre). split; [now apply Blank_space|].
        rewrite Heq, append_assoc, <- Hr. exact Hs.
Qed.

Lemma trimRightRev_blank (n : nat) :
  forall r, (String.length r <= n)%nat ->
    trimRightRev 0 r = "" -> Blank (rev r).
Proof.
  induction n as [|n IH]; intros r Hlen Hr.
  - destruct r; [constructor|simpl in Hlen; lia].
  - destruct (String.eqb_spec r "") as [->|Hne]; [constructor|].
    destruct (trimRightRev_step r Hne) as [[_ Heq]|(w & rest & Hin & Hs & Heq)].
    + congruence.
    + assert (Hrest : (String.length rest <= n)%nat).
      { pose proof (spaceRunes_nonempty w Hin).
        rewrite Hs, length_append, rev_length in Hlen.
        destruct w; [congruence|]. simpl in Hlen. lia. }
      rewrite Heq in Hr. specialize (IH rest Hrest Hr).
      rewrite Hs, rev_append, rev_involutive.
      apply Blank_app; [exact IH|now apply Blank_rune].
Qed.

(** A blank string is trimmed away from the left. *)
Lemma trimLeft_rune (w s : string) :
  In w spaceRunes -> trimLeft 0 (w ++ s) = trimLeft 0 s.
Proof.
  intros H. unfold spaceRunes in H. simpl in H.
  repeat (destruct H as [<-|H]; [reflexivity|]). contradiction.
Qed.

Lemma Blank_trimLeft (s : string) : Blank s -> trimLeft 0 s = "".
Proof.
  induction 1 as [|w s Hw Hs IH]; [reflexivity|].
  now rewrite trimLeft_rune.
Qed.

(** [TrimSpace] leaves nothing exactly of the blank strings. *)
Lemma TrimSpace_empty_iff (s : string) : TrimSpace s = "" <-> Blank s.
Proof.
  unfold TrimSpace. split.
  - intros H. apply rev_empty in H.
    apply (trimRightRev_blank _ _ (Nat.le_refl _)) in H.
    rewrite rev_involutive in H.
    destruct (trimLeft_blank_prefix _ s (Nat.le_refl _)) as (pre & Hpre & Hs).
    rewrite Hs. now apply Blank_app.
  - intros H. now rewrite Blank_trimLeft.
Qed.

End SpaceFacts.

(** ** Durations *)

Module DurationFacts.

Import time.

Ltac split_if H :=
  match type of H with
  | (if ?cond then _ else _) = _ => destruct cond
  end.

Lemma leadingInt_length (s : string) :
  forall x v rest,
    leadingInt x s = Some (v, rest) ->
    (String.length rest <= String.length s)%nat.
Proof.
  induction s as [|c s IH]; intros x v rest H; simpl in H.
  - injection H as _ <-. simpl. lia.
  - split_if H.
    + split_if H; [discriminate|].
      split_if H; [discriminate|].
      apply IH in H. simpl. lia.
    + injection H as _ <-. lia.
Qed.

Lemma leadingFraction_length (s : string) :
  forall x scale overflow f scale' rest,
    leadingFraction x scale overflow s = (f, scale', rest) ->
    (String.length rest <= String.length s)%nat.
Proof.
  induction s as [|c s IH]; intros x scale overflow f scale' rest H;
    simpl in H.
  - injection H as _ _ <-. simpl. lia.
  - split_if H.
    + repeat split_if H; apply IH in H; simpl; lia.
    + injection H as _ _ <-. lia.
Qed.

Lemma unitOf_length (s : string) :
  forall u rest,
    unitOf s = (u, rest) ->
    String.length s = (String.length u + String.length rest)%nat.
Proof.
  induction s as [|c s IH]; intros u rest H; simpl in H.
  - injection H as <- <-. reflexivity.
  - destruct (Ascii.eqb c "." || strconv.isDigit c).
    + injection H as <- <-. reflexivity.
    + destruct (unitOf s) as [u' r'] eqn:Hu.
      injection H as <- <-. simpl. now rewrite (IH u' r' eq_refl).
Qed.

(** Every turn of the loop leaves a strictly shorter string. *)
Lemma group_shrinks (orig : string) (d : Z) (s : string) (d' : Z)
    (rest : string) :
  group orig d s = inl (d', rest) ->
  (String.length rest < String.length s)%nat.
Proof.
  unfold group. destruct s as [|c s0]; [discriminate|].
  set (s := String c s0).
  destruct (negb (Ascii.eqb c "." || strconv.isDigit c)); [discriminate|].
  destruct (leadingInt 0 s) as [[v s1]|] eqn:Hint; [|discriminate].
  apply leadingInt_length in Hint.
  assert (Hfrac : forall f scale s2 post,
             match s1 with
             | String c1 s1' =>
                 if Ascii.eqb c1 "." then
                   let '(f, scale, s2) := leadingFraction 0 (float64_of_uint64 1) false s1' in
                   (f, scale, s2,
                    negb (String.length s1' =? String.length s2)%nat)
                 else (0, float64_of_uint64 1, s1, false)
             | EmptyString => (0, float64_of_uint64 1, s1, false)
             end = (f, scale, s2, post) ->
             (String.length s2 <= String.length s1)%nat).
  { intros f scale s2 post H. destruct s1 as [|c1 s1'].
    - injection H as _ _ <- _. lia.
    - destruct (Ascii.eqb c1 ".").
      + destruct (leadingFraction 0 (float64_of_uint64 1) false s1') as [[f' sc'] r'] eqn:Hf.
        injection H as _ _ <- _.
        apply leadingFraction_length in Hf. simpl. lia.
      + injection H as _ _ <- _. lia. }
  destruct (match s1 with
            | String c1 s1' => _
            | EmptyString => _
            end) as [[[f scale] s2] post] eqn:Hm.
  specialize (Hfrac f scale s2 post eq_refl).
  destruct (negb (negb (String.length s =? String.length s1)%nat)
            && negb post); [discriminate|].
  destruct (unitOf s2) as [u s3] eqn:Hu. apply unitOf_length in Hu.
  destruct (String.eqb_spec u "") as [->|Hne]; [discriminate|].
  destruct (lookup u unitMap) as [unit|]; [|discriminate].
  destruct (2 ^ 63 / unit <? v); [discriminate|].
  cbv zeta.
  match goal with
  | |- (if ?cond then _ else _) = _ -> _ => destruct cond; [discriminate|]
  end.
  match goal with
  | |- (if ?cond then _ else _) = _ -> _ => destruct cond; [discriminate|]
  end.
  intros H. injection H as _ <-.
  destruct u; [congruence|]. simpl in Hu. lia.
Qed.

(** The fuel [ParseDuration] gives its loop is enough: more fuel
    changes nothing. *)
Lemma groups_fuel (orig : string) (n : nat) :
  forall m d s,
    (String.length s <= n)%nat -> (String.length s <= m)%nat ->
    groups n orig d s = groups m orig d s.
Proof.
  induction n as [|n IH]; intros m d s Hn Hm.
  - destruct s; [|simpl in Hn; lia]. now destruct m.
  - destruct s as [|c s0]; [now destruct m|].
    destruct m as [|m]; [simpl in Hm; lia|].
    cbn [groups].
    destruct (group orig d (String c s0)) as [[d' s']|e] eqn:Hg;
      [|reflexivity].
    apply group_shrinks in Hg. simpl in Hg, Hn, Hm.
    apply IH; lia.
Qed.

End DurationFacts.

(** ** Construction *)

Section Timeout.

(** [parseTimeout] by cases on what [time.ParseDuration] returns. *)
Lemma parseTimeout_cases (raw : string) :
  (Blank raw /\ parseTimeout raw = (0, None))
  \/ (~ Blank raw
      /\ exists d err,
          time.ParseDuration raw = (d, err)
          /\ match err with
             | Some e =>
                 parseTimeout raw
                 = (0, Some (Wrapf "invalid plex timeout %q: %w" [raw] e))
             | None =>
                 if d <=? 0
                 then parseTimeout raw
                      = (0, Some (Errorf
                                    "invalid plex timeout %q: must be greater than zero"
                                    [raw]))
                 else parseTimeout raw = (d, None)
             end).
Proof.
  unfold parseTimeout.
  destruct (String.eqb_spec (strings.TrimSpace raw) "") as [Hb|Hnb].
  - left. split; [now apply SpaceFacts.TrimSpace_empty_iff|reflexivity].
  - right. split; [now rewrite <- SpaceFacts.TrimSpace_empty_iff|].
    destruct (time.ParseDuration raw) as [d err].
    exists d, err. split; [reflexivity|].
    destruct err as [e|]; [reflexivity|].
    now destruct (d <=? 0).
Qed.

(** C6, as amended: a blank timeout string, empty or made of white
    space only, yields the zero duration, which stands for no timeout,
    and no error.  Any other string must parse as a strictly positive
    duration, which is then returned; when it does not parse, or
    parses as zero or less, [parseTimeout] returns an error that names
    the timeout and no duration.  So 5s yields five seconds, and 0s
    and -1s are errors. *)
Theorem parseTimeout_blank_or_positive :
  (forall raw, Blank raw -> parseTimeout raw = (0, None))
  /\ (forall raw d,
        ~ Blank raw -> time.ParseDuration raw = (d, None) -> 0 < d ->
        parseTimeout raw = (d, None))
  /\ (forall raw,
        ~ Blank raw ->
        snd (time.ParseDuration raw) <> None
        \/ fst (time.ParseDuration raw) <= 0 ->
        exists fmt inner,
          parseTimeout raw = (0, Some inner)
          /\ (inner = Errorf fmt [raw] \/ exists e, inner = Wrapf fmt [raw] e)
          /\ strings.HasPrefix fmt "invalid plex timeout %q" = true)
  /\ parseTimeout "" = (0, None)
  /\ parseTimeout "5s" = (5 * time.Second, None)
  /\ parseTimeout "0s"
     = (0, Some (Errorf "invalid plex timeout %q: must be greater than zero"
                   ["0s"]))
  /\ parseTimeout "-1s"
     = (0, Some (Errorf "invalid plex timeout %q: must be greater than zero"
                   ["-1s"])).
Proof.
  split; [|split; [|split; [|repeat split; reflexivity]]].
  - intros raw Hb.
    destruct (parseTimeout_cases raw) as [[_ H]|[Hnb _]]; [exact H|tauto].
  - intros raw d Hnb Hp Hd.
    destruct (parseTimeout_cases raw) as [[Hb _]|[_ (d' & err & Hp' & H)]];
      [tauto|].
    rewrite Hp in Hp'. injection Hp' as <- <-.
    destruct (Z.leb_spec d 0); [lia|exact H].
  - intros raw Hnb Hbad.
    destruct (parseTimeout_cases raw) as [[Hb _]|[_ (d & err & Hp & H)]];
      [tauto|].
    rewrite Hp in Hbad. simpl in Hbad.
    destruct err as [e|].
    + eexists _, _. split; [exact H|]. split; [right; now exists e|reflexivity].
    + destruct Hbad as [Hbad|Hbad]; [congruence|].
      destruct (Z.leb_spec d 0); [|lia].
      eexists _, _. split; [exact H|]. split; [now left|reflexivity].
Qed.

(** C6, as stated, fails: a single space is not the empty string and
    does not parse as a duration, yet [parseTimeout] returns no
    error. *)
Lemma parseTimeout_space_is_no_error :
  " " <> ""
  /\ (exists e, time.ParseDuration " " = (0, Some e))
  /\ parseTimeout " " = (0, None).
Proof.
  split; [discriminate|]. split; [|reflexivity].
  eexists. reflexivity.
Qed.

(** The scale of a fraction is a [float64] multiplied by ten at every
    digit kept, leading zeros included: a fraction of twenty-five
    digits that is worth one nanosecond is read as one nanosecond. *)
Lemma parseTimeout_long_fraction :
  parseTimeout "0.0000000010000000000000000s" = (1, None)
  /\ parseTimeout "1.0000000010000000000000000s"
     = (time.Second + 1, None)
  /\ time.ParseDuration "0.0000000010000000000000000s" = (1, None).
Proof. repeat split; vm_compute; reflexivity. Qed.

End Timeout.

Section Construction.

Context {C : Collaborators}.

Ltac run_New :=
  unfold New, bind, ret, emit, Version, Libraries, call;
  cbn [URL Token Rewrite Verbosity Timeout Product ClientIdentifier
       setProduct setClientIdentifier].

(** [New] up to its first call, when the rewriter and the timeout
    are in order. *)
Lemma New_after_version (c : Config) (st : State)
    (rw : Rewriter) (timeout : time.Duration) :
  NewRewriter (Rewrite c) = (rw, None) ->
  parseTimeout (Timeout c) = (timeout, None) ->
  let cl := clientOf c timeout in
  let rv := api_Version cl (remote st) in
  let st1 := {| remote := snd rv; events := events st ++ [VersionCall cl] |} in
  let st2 := {| remote := snd rv;
                events := events st1
                          ++ [Logged (loggerOf c) DebugLevel []
                                ("Plex version: " ++ fst (fst rv))] |} in
  match snd (fst rv) with
  | Some e => New c st = ((None, Some e), st1)
  | None =>
      if isSupportedVersion (fst (fst rv))
      then
        let rl := api_Libraries cl (remote st2) in
        let st3 := {| remote := snd rl;
                      events := events st2 ++ [LibrariesCall cl] |} in
        match snd (fst rl) with
        | Some e => New c st = ((None, Some e), st3)
        | None =>
            exists st4,
              New c st
              = ((Some {| url := URL c; token := Token c;
                          libraries := fst (fst rl);
                          log := loggerOf c; rewrite := rw; api := cl |},
                  None), st4)
        end
      else
        New c st
        = ((None,
            Some (Wrapf "plex running unsupported version %s: %w"
                    [fst (fst rv)] (Sentinel ErrFatal))), st2)
  end.
Proof.
  intros Hrw Hto. run_New. rewrite Hrw, Hto.
  fold (loggerOf c). fold (productOf c). fold (identifierOf c).
  fold (clientOf c timeout).
  cbv zeta.
  destruct (api_Version (clientOf c timeout) (remote st))
    as [[version [e|]] w1]; cbn [fst snd remote events]; [reflexivity|].
  destruct (isSupportedVersion version); cbn [negb fst snd remote events];
    [|reflexivity].
  destruct (api_Libraries (clientOf c timeout) w1) as [[libs [e|]] w2];
    cbn [fst snd remote events]; [reflexivity|].
  eexists. reflexivity.
Qed.

(** C5: when the rewriter and the timeout are in order and the remote
    reports a version the gate rejects, [New] returns no target and an
    error that wraps [autoscan.ErrFatal]: [errors.Is] finds the
    marker in it, which tells it from every error that does not carry
    the marker; an error of the version query itself is returned as
    the client gave it.  The catalog is not fetched. *)
Theorem New_unsupported_version_is_fatal
    (c : Config) (st : State) (rw : Rewriter) (timeout : time.Duration)
    (v : string) (w1 : World)
    (Hrw : NewRewriter (Rewrite c) = (rw, None))
    (Hto : parseTimeout (Timeout c) = (timeout, None))
    (Hv : api_Version (clientOf c timeout) (remote st) = ((v, None), w1))
    (Hold : isSupportedVersion v = false) :
  exists err,
    fst (New c st) = (None, Some err)
    /\ err = Wrapf "plex running unsupported version %s: %w" [v]
               (Sentinel ErrFatal)
    /\ errors_Is err ErrFatal = true
    /\ (forall e, errors_Is e ErrFatal = false -> err <> e)
    /\ remote (snd (New c st)) = w1
    /\ events (snd (New c st))
       = (events st
          ++ [VersionCall (clientOf c timeout);
              Logged (loggerOf c) DebugLevel [] ("Plex version: " ++ v)])%list.
Proof.
  pose proof (New_after_version c st rw timeout Hrw Hto) as H.
  cbv zeta in H. rewrite Hv in H. cbn [fst snd] in H. rewrite Hold in H.
  eexists. rewrite H. cbn [fst snd remote events].
  split; [reflexivity|]. split; [reflexivity|]. split; [reflexivity|].
  split; [|split; [reflexivity|]].
  - intros e He Heq. subst e. discriminate.
  - now rewrite <- app_assoc.
Qed.

(** An error of the version query is returned unchanged. *)
Lemma New_version_error_as_is
    (c : Config) (st : State) (rw : Rewriter) (timeout : time.Duration)
    (v : string) (e : error) (w1 : World) :
  NewRewriter (Rewrite c) = (rw, None) ->
  parseTimeout (Timeout c) = (timeout, None) ->
  api_Version (clientOf c timeout) (remote st) = ((v, Some e), w1) ->
  fst (New c st) = (None, Some e).
Proof.
  intros Hrw Hto Hv.
  pose proof (New_after_version c st rw timeout Hrw Hto) as H.
  cbv zeta in H. rewrite Hv in H. cbn [fst snd] in H. now rewrite H.
Qed.

(** The target [New] returns holds the client [New] made. *)
Lemma New_target_client (c : Config) (st : State) (t : target) :
  fst (New c st) = (Some t, None) ->
  exists timeout, api t = clientOf c timeout.
Proof.
  intros HN.
  destruct (NewRewriter (Rewrite c)) as [rw [e|]] eqn:Hrw.
  { revert HN. run_New. rewrite Hrw. discriminate. }
  destruct (parseTimeout (Timeout c)) as [timeout [e|]] eqn:Hto.
  { revert HN. run_New. rewrite Hrw, Hto. discriminate. }
  exists timeout.
  pose proof (New_after_version c st rw timeout Hrw Hto) as H.
  cbv zeta in H.
  destruct (snd (fst (api_Version (clientOf c timeout) (remote st)))).
  { rewrite H in HN. discriminate. }
  destruct (isSupportedVersion _); [|rewrite H in HN; discriminate].
  destruct (snd (fst (api_Libraries _ _))).
  { rewrite H in HN. discriminate. }
  destruct H as [st4 H]. rewrite H in HN. cbn [fst] in HN.
  injection HN as <-. reflexivity.
Qed.

End Construction.

Section Identity.

Context {C : Collaborators}.

Lemma TrimPrefix_app (p rest : string) :
  strings.TrimPrefix (p ++ rest) p = rest.
Proof.
  unfold strings.TrimPrefix. rewrite HasPrefix_app.
  induction p as [|c p IH]; simpl; [reflexivity|exact IH].
Qed.

Lemma TrimPrefix_empty (p : string) : strings.TrimPrefix "" p = "".
Proof. unfold strings.TrimPrefix. now destruct p. Qed.

(** C7: [defaultClientIdentifier] is the fixed fallback ["autoscan"]
    when the URL does not parse or has an empty host, and otherwise a
    function of the host with one leading ["www."] removed: the
    fallback extended by a hyphen and what is left of the host.  For
    https://www.example.com:32400, whose host part includes the port,
    the identifier is built on example.com:32400.  [New] hands this
    identifier to the client when the configured one is blank. *)
Theorem defaultClientIdentifier_from_host :
  (forall rawURL e,
      url_Parse rawURL = inr e -> defaultClientIdentifier rawURL = "autoscan")
  /\ (forall rawURL u,
        url_Parse rawURL = inl u -> Host u = "" ->
        defaultClientIdentifier rawURL = "autoscan")
  /\ (forall rawURL u,
        url_Parse rawURL = inl u ->
        strings.TrimPrefix (Host u) "www." <> "" ->
        defaultClientIdentifier rawURL
        = "autoscan-" ++ strings.TrimPrefix (Host u) "www.")
  /\ (forall rawURL u h,
        url_Parse rawURL = inl u -> Host u = "www." ++ h -> h <> "" ->
        defaultClientIdentifier rawURL = "autoscan-" ++ h)
  /\ (forall u,
        url_Parse "https://www.example.com:32400" = inl u ->
        Host u = "www.example.com:32400" ->
        defaultClientIdentifier "https://www.example.com:32400"
        = "autoscan-example.com:32400")
  /\ (forall c st t,
        Blank (ClientIdentifier c) ->
        fst (New c st) = (Some t, None) ->
        clientIdentifier (api t) = defaultClientIdentifier (URL c)).
Proof.
  assert (Hderive : forall rawURL u,
             url_Parse rawURL = inl u ->
             strings.TrimPrefix (Host u) "www." <> "" ->
             defaultClientIdentifier rawURL
             = "autoscan-" ++ strings.TrimPrefix (Host u) "www.").
  { intros rawURL u Hu Hh. unfold defaultClientIdentifier. rewrite Hu.
    destruct (String.eqb_spec (Host u) "") as [He|_].
    - rewrite He, TrimPrefix_empty in Hh. congruence.
    - now destruct (String.eqb_spec (strings.TrimPrefix (Host u) "www.") ""). }
  split; [|split; [|split; [|split; [|split]]]].
  - intros rawURL e He. unfold defaultClientIdentifier. now rewrite He.
  - intros rawURL u Hu Hh. unfold defaultClientIdentifier.
    now rewrite Hu, Hh.
  - exact Hderive.
  - intros rawURL u h Hu Hh Hne.
    rewrite (Hderive rawURL u Hu); rewrite Hh, TrimPrefix_app;
      [reflexivity|exact Hne].
  - intros u Hu Hh.
    rewrite (Hderive _ u Hu); rewrite Hh; [reflexivity|discriminate].
  - intros c st t Hb HN.
    destruct (New_target_client c st t HN) as [timeout ->].
    unfold clientOf, newAPIClient, identifierOf. cbn [clientIdentifier].
    apply SpaceFacts.TrimSpace_empty_iff in Hb. now rewrite Hb.
Qed.

(** The first thing [New] does to the remote, when the rewriter and
    the timeout are in order, is the version query through the client
    it has made. *)
Lemma New_first_call (c : Config) (st : State)
    (rw : Rewriter) (timeout : time.Duration) :
  NewRewriter (Rewrite c) = (rw, None) ->
  parseTimeout (Timeout c) = (timeout, None) ->
  exists more,
    events (snd (New c st))
    = (events st
       ++ VersionCall
            (newAPIClient (URL c) (Token c)
               (With (GetLogger (Verbosity c))
                  [Str "target" "plex"; Str "url" (URL c)])
               timeout
               (if String.eqb (strings.TrimSpace (Product c)) ""
                then "autoscan" else Product c)
               (if String.eqb (strings.TrimSpace (ClientIdentifier c)) ""
                then defaultClientIdentifier (URL c)
                else ClientIdentifier c))
          :: more)%list.
Proof.
  intros Hrw Hto.
  unfold New, bind, ret, emit, Version, Libraries, call.
  rewrite Hrw, Hto. cbv zeta.
  match goal with |- context [api_Version ?cl (remote st)] =>
    set (client := cl);
    destruct (api_Version client (remote st)) as [[version [e|]] w1]
  end; cbn [fst snd remote events].
  { exists []. reflexivity. }
  destruct (isSupportedVersion version); cbn [negb fst snd remote events].
  - destruct (api_Libraries client w1) as [[libs [e|]] w2];
      cbn [fst snd remote events]; eexists; rewrite <- !app_assoc;
      reflexivity.
  - eexists. rewrite <- !app_assoc. reflexivity.
Qed.

(** The client in the target [New] returns, with the timeout it was
    made for. *)
Lemma New_target_client_timeout (c : Config) (st : State) (t : target) :
  fst (New c st) = (Some t, None) ->
  exists timeout,
    parseTimeout (Timeout c) = (timeout, None)
    /\ api t = clientOf c timeout.
Proof.
  intros HN.
  destruct (NewRewriter (Rewrite c)) as [rw [e|]] eqn:Hrw.
  { revert HN. unfold New. rewrite Hrw. discriminate. }
  destruct (parseTimeout (Timeout c)) as [timeout [e|]] eqn:Hto.
  { revert HN. unfold New. rewrite Hrw, Hto. discriminate. }
  exists timeout. split; [reflexivity|].
  pose proof (New_after_version c st rw timeout Hrw Hto) as H.
  cbv zeta in H.
  destruct (snd (fst (api_Version (clientOf c timeout) (remote st)))).
  { rewrite H in HN. discriminate. }
  destruct (isSupportedVersion _); [|rewrite H in HN; discriminate].
  destruct (snd (fst (api_Libraries _ _))).
  { rewrite H in HN. discriminate. }
  destruct H as [st4 H]. rewrite H in HN. cbn [fst] in HN.
  injection HN as <-. reflexivity.
Qed.

(** C9: a configuration string made of white space only is treated
    as the empty string.  As a timeout it yields no timeout and no
    error, and [New] goes on to query the remote through a client
    without timeout.  As the product it makes [New] use the product
    ["autoscan"], and as the client identifier the identifier derived
    from the URL: the client of the version query, the first call
    [New] makes once the rewriter and the timeout are in order, carries
    them, and so does the client of the target [New] returns.  In all
    three fields [New] does exactly what it does on the empty
    string. *)
Theorem whitespace_only_as_empty (ws : string) (Hws : Blank ws) :
  parseTimeout ws = parseTimeout ""
  /\ parseTimeout ws = (0, None)
  /\ (forall c st, New (setProduct c ws) st = New (setProduct c "") st)
  /\ (forall c st,
        New (setClientIdentifier c ws) st = New (setClientIdentifier c "") st)
  /\ (forall c, productOf (setProduct c ws) = "autoscan")
  /\ (forall c,
        identifierOf (setClientIdentifier c ws)
        = defaultClientIdentifier (URL c))
  /\ (forall c st, New (setTimeout c ws) st = New (setTimeout c "") st)
  /\ (forall c st rw timeout,
        NewRewriter (Rewrite c) = (rw, None) ->
        parseTimeout (Timeout c) = (timeout, None) ->
        exists cl more,
          events (snd (New (setProduct c ws) st))
          = (events st ++ VersionCall cl :: more)%list
          /\ product cl = "autoscan")
  /\ (forall c st rw timeout,
        NewRewriter (Rewrite c) = (rw, None) ->
        parseTimeout (Timeout c) = (timeout, None) ->
        exists cl more,
          events (snd (New (setClientIdentifier c ws) st))
          = (events st ++ VersionCall cl :: more)%list
          /\ clientIdentifier cl = defaultClientIdentifier (URL c))
  /\ (forall c st rw,
        NewRewriter (Rewrite c) = (rw, None) ->
        exists cl more,
          events (snd (New (setTimeout c ws) st))
          = (events st ++ VersionCall cl :: more)%list
          /\ apiTimeout cl = 0)
  /\ (forall c st t,
        fst (New (setProduct c ws) st) = (Some t, None) ->
        product (api t) = "autoscan")
  /\ (forall c st t,
        fst (New (setClientIdentifier c ws) st) = (Some t, None) ->
        clientIdentifier (api t) = defaultClientIdentifier (URL c))
  /\ (forall c st t,
        fst (New (setTimeout c ws) st) = (Some t, None) ->
        apiTimeout (api t) = 0).
Proof.
  pose proof (proj2 (SpaceFacts.TrimSpace_empty_iff ws) Hws) as Htrim.
  assert (Hto : parseTimeout ws = (0, None))
    by (unfold parseTimeout; now rewrite Htrim).
  split; [exact Hto|]. split; [exact Hto|].
  split; [|split; [|split; [|split]]].
  - intros c st. unfold New.
    cbn [URL Token Rewrite Verbosity Timeout Product ClientIdentifier
         setProduct].
    rewrite Htrim. reflexivity.
  - intros c st. unfold New.
    cbn [URL Token Rewrite Verbosity Timeout Product ClientIdentifier
         setClientIdentifier].
    rewrite Htrim. reflexivity.
  - intros c. unfold productOf. cbn [Product setProduct]. now rewrite Htrim.
  - intros c. unfold identifierOf.
    cbn [ClientIdentifier URL setClientIdentifier]. now rewrite Htrim.
  - split; [|split; [|split; [|split; [|split; [|split]]]]].
    + intros c st. unfold New.
      cbn [URL Token Rewrite Verbosity Timeout Product ClientIdentifier
           setTimeout].
      rewrite Hto. reflexivity.
    + intros c st rw timeout Hrw Hc.
      destruct (New_first_call (setProduct c ws) st rw timeout Hrw Hc)
        as [more Hev].
      cbn [URL Token Verbosity Product ClientIdentifier setProduct] in Hev.
      rewrite Htrim in Hev. eexists _, more. split; [exact Hev|reflexivity].
    + intros c st rw timeout Hrw Hc.
      destruct (New_first_call (setClientIdentifier c ws) st rw timeout
                  Hrw Hc) as [more Hev].
      cbn [URL Token Verbosity Product ClientIdentifier setClientIdentifier]
        in Hev.
      rewrite Htrim in Hev. eexists _, more. split; [exact Hev|reflexivity].
    + intros c st rw Hrw.
      destruct (New_first_call (setTimeout c ws) st rw 0 Hrw Hto)
        as [more Hev].
      eexists _, more. split; [exact Hev|reflexivity].
    + intros c st t HN.
      destruct (New_target_client_timeout _ st t HN) as (timeout & _ & ->).
      unfold clientOf, newAPIClient, productOf.
      cbn [product Product setProduct]. now rewrite Htrim.
    + intros c st t HN.
      destruct (New_target_client_timeout _ st t HN) as (timeout & _ & ->).
      unfold clientOf, newAPIClient, identifierOf.
      cbn [clientIdentifier ClientIdentifier URL setClientIdentifier].
      now rewrite Htrim.
    + intros c st t HN.
      destruct (New_target_client_timeout _ st t HN) as (timeout & Ht & ->).
      cbn [Timeout setTimeout] in Ht. rewrite Hto in Ht.
      injection Ht as <-. reflexivity.
Qed.

End Identity.

(** ** The theorems on the concrete remote service *)

Module Checks.

Import Demo.

(** The end-to-end example of the specification: one scan call, for
    the library 1, with the folder as its path. *)
Example end_to_end :
  let out :=
    Scan (mkTarget [movies; tv]) {| autoscan.Folder := inception |}
      (start (mkWorld "1.32.5" [movies; tv] [])) in
  fst out = None /\ triggers (events (snd out)) = [(inception, 1)].
Proof. split; reflexivity. Qed.

Lemma getScanLibrary_literal_prefix_witness :
  In mov (libraries (mkTarget [movies; tv; mov]))
  /\ In mov (fst (getScanLibrary (mkTarget [movies; tv; mov])
                    "/media/Movies2/x"))
  /\ ~ In mov (fst (getScanLibrary (mkTarget [movies; tv; mov])
                      "/media/Music")).
Proof.
  assert (HL : In mov (libraries (mkTarget [movies; tv; mov])))
    by (simpl; tauto).
  split; [exact HL|]. split.
  - apply (proj2 (getScanLibrary_literal_prefix
                    (mkTarget [movies; tv; mov]) "/media/Movies2/x" mov HL)).
    reflexivity.
  - intros Hin.
    apply (proj1 (getScanLibrary_literal_prefix
                    (mkTarget [movies; tv; mov]) "/media/Music" mov HL)) in Hin.
    discriminate Hin.
Defined.

(** C8, as stated, fails in both directions: the folder of the
    end-to-end example resolves to the library rooted at /data/movies
    without being a prefix of that path, and /data is a prefix of
    that path without resolving to the library. *)
Lemma folder_prefix_of_path_refuted :
  ~ (forall (t : target) (F : string) (L : library Z),
        In L (libraries t) ->
        In L (fst (getScanLibrary t F))
        <-> strings.HasPrefix (Path L) F = true)
  /\ In movies (fst (getScanLibrary (mkTarget [movies; tv]) inception))
  /\ strings.HasPrefix (Path movies) inception = false
  /\ strings.HasPrefix (Path movies) "/data" = true
  /\ fst (getScanLibrary (mkTarget [movies; tv]) "/data") = [].
Proof.
  assert (Hin : In movies (fst (getScanLibrary (mkTarget [movies; tv])
                                  inception)))
    by (simpl; tauto).
  split; [|split; [exact Hin|repeat split; reflexivity]].
  intros H.
  assert (HL : In movies (libraries (mkTarget [movies; tv])))
    by (simpl; tauto).
  apply (H (mkTarget [movies; tv]) inception movies HL) in Hin.
  discriminate Hin.
Qed.

Lemma Scan_triggers_in_order_until_failure_witness :
  (let out :=
     Scan (mkTarget shelf) {| autoscan.Folder := inception |}
       (start (mkWorld "1.32.5" shelf [5])) in
   fst out = Some unavailable
   /\ triggers (events (snd out)) = [(inception, 1); (inception, 5)])
  /\ (let out :=
        Scan (mkTarget shelf) {| autoscan.Folder := inception |}
          (start (mkWorld "1.32.5" shelf [])) in
      fst out = None
      /\ triggers (events (snd out))
         = [(inception, 1); (inception, 5); (inception, 4)]).
Proof.
  split.
  - pose proof (Scan_triggers_in_order_until_failure
                  (mkTarget shelf) {| autoscan.Folder := inception |}
                  (start (mkWorld "1.32.5" shelf [5]))) as H.
    cbv zeta in H. destruct H as (_ & Hfail & _).
    destruct (Hfail [movies] data [everything]
                {| version := "1.32.5"; catalog := shelf; failing := [5];
                   served := 1 |}
                unavailable
                {| version := "1.32.5"; catalog := shelf; failing := [5];
                   served := 2 |}
                eq_refl eq_refl eq_refl) as (H1 & _ & H3).
    split; [exact H1|exact H3].
  - pose proof (Scan_triggers_in_order_until_failure
                  (mkTarget shelf) {| autoscan.Folder := inception |}
                  (start (mkWorld "1.32.5" shelf []))) as H.
    cbv zeta in H. destruct H as (_ & _ & Hall).
    destruct (Hall {| version := "1.32.5"; catalog := shelf; failing := [];
                      served := 3 |} eq_refl) as (H1 & _ & H3).
    split; [exact H1|exact H3].
Defined.

Lemma Scan_no_match_is_success_witness :
  (forall L, In L (libraries (mkTarget [movies; tv])) ->
             strings.HasPrefix "/music/x" (Path L) = false)
  /\ fst (Scan (mkTarget [movies; tv]) {| autoscan.Folder := "/music/x" |}
            (start (mkWorld "1.32.5" [movies; tv] []))) = None
  /\ triggers (events (snd (Scan (mkTarget [movies; tv])
                               {| autoscan.Folder := "/music/x" |}
                               (start (mkWorld "1.32.5" [movies; tv] [])))))
     = [].
Proof.
  assert (Hnone : forall L, In L (libraries (mkTarget [movies; tv])) ->
                   strings.HasPrefix "/music/x" (Path L) = false).
  { intros L [<-|[<-|[]]]; reflexivity. }
  split; [exact Hnone|].
  destruct (Scan_no_match_is_success (mkTarget [movies; tv])
              {| autoscan.Folder := "/music/x" |}
              (start (mkWorld "1.32.5" [movies; tv] [])) Hnone)
    as (H1 & _ & H3 & _).
  split; [exact H1|exact H3].
Defined.

Lemma empty_path_library_always_resolved_witness :
  In everything (libraries (mkTarget shelf))
  /\ Path everything = ""
  /\ In everything (fst (getScanLibrary (mkTarget shelf) "/music/x"))
  /\ In everything (fst (getScanLibrary (mkTarget shelf) ""))
  /\ In (inception, 4)
       (triggers (events (snd (Scan (mkTarget shelf)
                                 {| autoscan.Folder := inception |}
                                 (start (mkWorld "1.32.5" shelf [])))))).
Proof.
  assert (HL : In everything (libraries (mkTarget shelf)))
    by (simpl; tauto).
  split; [exact HL|]. split; [reflexivity|].
  destruct (empty_path_library_always_resolved (mkTarget shelf) everything
              HL eq_refl) as (Hany & Hempty & Hscan).
  split; [exact (proj1 (Hany "/music/x"))|]. split; [exact Hempty|].
  exact (Hscan {| autoscan.Folder := inception |}
           (start (mkWorld "1.32.5" shelf []))
           [movies; data] []
           {| version := "1.32.5"; catalog := shelf; failing := [];
              served := 2 |}
           eq_refl eq_refl).
Defined.

(** C10, as stated, fails: with the scan of the library rooted at
    /data refused, [Scan] stops there and issues no trigger for the
    library with the empty path, which the folder resolves to as
    well. *)
Lemma empty_path_library_not_always_triggered :
  let t := mkTarget [data; everything] in
  let st := start (mkWorld "1.32.5" [data; everything] [5]) in
  let out := Scan t {| autoscan.Folder := "/data/x" |} st in
  In everything (libraries t)
  /\ Path everything = ""
  /\ fst (getScanLibrary t "/data/x") = [data; everything]
  /\ fst out = Some unavailable
  /\ triggers (events (snd out)) = [("/data/x", 5)]
  /\ ~ In ("/data/x", ID everything) (triggers (events (snd out))).
Proof.
  cbv zeta. split; [simpl; tauto|].
  repeat split.
  intros [H|[]]. discriminate H.
Qed.

End Checks.

Module ConstructionChecks.

Import Demo.

Lemma New_unsupported_version_is_fatal_witness :
  NewRewriter (Rewrite cfg) = (applyRules [], None)
  /\ parseTimeout (Timeout cfg) = (5 * time.Second, None)
  /\ api_Version (clientOf cfg (5 * time.Second)) (remote (start old))
     = (("1.19.9", None), old)
  /\ isSupportedVersion "1.19.9" = false
  /\ exists err,
      fst (New cfg (start old)) = (None, Some err)
      /\ errors_Is err ErrFatal = true.
Proof.
  repeat (split; [reflexivity|]).
  destruct (New_unsupported_version_is_fatal cfg (start old)
              (applyRules []) (5 * time.Second) "1.19.9" old
              eq_refl eq_refl eq_refl eq_refl)
    as (err & H1 & _ & H3 & _).
  exists err. split; [exact H1|exact H3].
Defined.

Lemma not_Blank_5s : ~ Blank "5s".
Proof.
  intros H. apply SpaceFacts.TrimSpace_empty_iff in H. discriminate H.
Qed.

Lemma parseTimeout_blank_or_positive_witness :
  parseTimeout "5s" = (5000000000, None)
  /\ parseTimeout (String (ascii_of_nat 9) " ") = (0, None)
  /\ exists fmt inner, parseTimeout "1 hour" = (0, Some inner)
                       /\ strings.HasPrefix fmt "invalid plex timeout %q" = true.
Proof.
  destruct parseTimeout_blank_or_positive as (Hblank & Hpos & Hbad & _).
  split; [|split].
  - apply Hpos; [exact not_Blank_5s|reflexivity|reflexivity].
  - apply Hblank. apply SpaceFacts.TrimSpace_empty_iff. reflexivity.
  - destruct (Hbad "1 hour") as (fmt & inner & H1 & _ & H3).
    + intros H. apply SpaceFacts.TrimSpace_empty_iff in H. discriminate H.
    + left. discriminate.
    + exists fmt, inner. split; [exact H1|exact H3].
Defined.

Lemma defaultClientIdentifier_from_host_witness :
  defaultClientIdentifier "https://www.example.com:32400"
  = "autoscan-example.com:32400"
  /\ defaultClientIdentifier ("http://plex" ++ newline) = "autoscan"
  /\ defaultClientIdentifier "plex" = "autoscan"
  /\ identifierOf cfg = "autoscan-example.com:32400"
  /\ exists t, fst (New cfg (start current)) = (Some t, None)
               /\ clientIdentifier (api t) = "autoscan-example.com:32400".
Proof.
  destruct (defaultClientIdentifier_from_host (C := service))
    as (Herr & Hempty & _ & _ & Hex & Hnew).
  split; [|split; [|split; [|split]]].
  - exact (Hex {| Scheme := "https"; Host := "www.example.com:32400";
                  UrlPath := "" |} eq_refl eq_refl).
  - exact (Herr ("http://plex" ++ newline)
             (Errorf "net/url: invalid control character in URL" [])
             eq_refl).
  - exact (Hempty "plex" {| Scheme := ""; Host := ""; UrlPath := "plex" |}
             eq_refl eq_refl).
  - reflexivity.
  - eexists. split; [reflexivity|].
    rewrite (Hnew cfg (start current) _ Blank_empty eq_refl). reflexivity.
Defined.

Lemma whitespace_only_as_empty_witness :
  Blank blanks
  /\ parseTimeout blanks = (0, None)
  /\ New (setProduct cfg blanks) (start old)
     = New (setProduct cfg "") (start old)
  /\ identifierOf (setClientIdentifier cfg blanks)
     = "autoscan-example.com:32400"
  /\ (exists cl more,
        events (snd (New (setProduct cfg blanks) (start current)))
        = VersionCall cl :: more
        /\ product cl = "autoscan")
  /\ (exists cl more,
        events (snd (New (setClientIdentifier cfg blanks) (start current)))
        = VersionCall cl :: more
        /\ clientIdentifier cl = "autoscan-example.com:32400")
  /\ (exists cl more,
        events (snd (New (setTimeout cfg blanks) (start current)))
        = VersionCall cl :: more
        /\ apiTimeout cl = 0)
  /\ exists t,
      fst (New (setProduct cfg blanks) (start current)) = (Some t, None)
      /\ product (api t) = "autoscan".
Proof.
  assert (Hb : Blank blanks)
    by (apply SpaceFacts.TrimSpace_empty_iff; reflexivity).
  split; [exact Hb|].
  destruct (whitespace_only_as_empty (C := service) blanks Hb)
    as (_ & Hto & Hprod & _ & _ & Hid & _ & Hcp & Hci & Hct & Htp & _ & _).
  split; [exact Hto|]. split; [exact (Hprod cfg (start old))|].
  split; [rewrite (Hid cfg); reflexivity|].
  split; [exact (Hcp cfg (start current) (applyRules []) 5000000000
                   eq_refl eq_refl)|].
  split; [exact (Hci cfg (start current) (applyRules []) 5000000000
                   eq_refl eq_refl)|].
  split; [exact (Hct cfg (start current) (applyRules []) eq_refl)|].
  eexists. split; [reflexivity|].
  exact (Htp cfg (start current) _ eq_refl).
Defined.

End ConstructionChecks.

(** ** More on the library resolver *)

Section ResolverMore.

Context {C : Collaborators}.

Lemma HasPrefix_trans (s p q : string) :
  strings.HasPrefix s p = true -> strings.HasPrefix p q = true ->
  strings.HasPrefix s q = true.
Proof.
  intros Hsp Hpq.
  apply HasPrefix_split in Hsp as [r1 ->].
  apply HasPrefix_split in Hpq as [r2 ->].
  rewrite SpaceFacts.append_assoc. apply HasPrefix_app.
Qed.

Lemma HasPrefix_extend (s p x : string) :
  strings.HasPrefix s p = true -> strings.HasPrefix (s ++ x) p = true.
Proof.
  intros H. apply HasPrefix_split in H as [r ->].
  rewrite SpaceFacts.append_assoc. apply HasPrefix_app.
Qed.

(** X1: [getScanLibrary] returns either a non-empty list of libraries
    and no error, or no library and the error that names the folder;
    the error is returned exactly when the folder starts with the path
    of no library of the catalog. *)
Theorem getScanLibrary_libraries_or_error (t : target) (F : string) :
  (exists libs,
      libs <> [] /\ getScanLibrary t F = (libs, None)
      /\ exists L, In L (libraries t) /\ strings.HasPrefix F (Path L) = true)
  \/ (getScanLibrary t F
      = ([], Some (Errorf "%v: failed determining libraries" [F]))
      /\ forall L, In L (libraries t) ->
                   strings.HasPrefix F (Path L) = false).
Proof.
  unfold getScanLibrary. rewrite matching_filter. cbn [app].
  destruct (filter (fun l => strings.HasPrefix F (Path l)) (libraries t))
    as [|L ls] eqn:Hf.
  - right. split; [reflexivity|].
    intros L HL. destruct (strings.HasPrefix F (Path L)) eqn:HP;
      [|reflexivity].
    assert (Hin : In L []) by (rewrite <- Hf; apply filter_In; now split).
    destruct Hin.
  - left. exists (L :: ls). split; [discriminate|]. split; [reflexivity|].
    exists L.
    apply (proj1 (filter_In (fun l => strings.HasPrefix F (Path l)) L
                    (libraries t))).
    rewrite Hf. now left.
Qed.

(** X2: resolution only grows with the folder: a library a folder
    resolves to is also resolved for every path below it, indeed for
    the folder followed by any bytes, and if the folder resolves
    without error so does the longer one. *)
Theorem getScanLibrary_monotone (t : target) (F x : string) :
  (forall L, In L (fst (getScanLibrary t F)) ->
             In L (fst (getScanLibrary t (F ++ x))))
  /\ (snd (getScanLibrary t F) = None ->
      snd (getScanLibrary t (F ++ x)) = None).
Proof.
  assert (Hmono : forall L, In L (resolved t F) -> In L (resolved t (F ++ x))).
  { intros L HL. apply In_resolved in HL as [Hin HP].
    apply In_resolved. split; [exact Hin|now apply HasPrefix_extend]. }
  destruct (getScanLibrary_resolved t F) as [Hf Hs].
  destruct (getScanLibrary_resolved t (F ++ x)) as [Hf' Hs'].
  rewrite Hf, Hf'. split; [exact Hmono|].
  intros Hok. apply Hs'. apply Hs in Hok.
  destruct (resolved t F) as [|L ls]; [congruence|].
  intros Hnil. specialize (Hmono L (or_introl eq_refl)).
  now rewrite Hnil in Hmono.
Qed.

(** X3: nested roots: when a folder resolves to a library, it also
    resolves to every library of the catalog whose path is a prefix of
    that library's path. *)
Theorem getScanLibrary_nested_roots
    (t : target) (F : string) (outer inner : library LibraryID)
    (Hout : In outer (libraries t))
    (Hnest : strings.HasPrefix (Path inner) (Path outer) = true)
    (Hin : In inner (fst (getScanLibrary t F))) :
  In outer (fst (getScanLibrary t F)).
Proof.
  rewrite (proj1 (getScanLibrary_resolved t F)) in *.
  apply In_resolved in Hin as [_ HP].
  apply In_resolved. split; [exact Hout|].
  exact (HasPrefix_trans _ _ _ HP Hnest).
Qed.

End ResolverMore.

(** ** More on the scan dispatcher *)

Section DispatcherMore.

Context {C : Collaborators}.

(** The loop of [Scan], for every behaviour of the remote. *)
Lemma sendScans_outcome (t : target) (F : string)
    (libs : list (library LibraryID)) :
  forall st : State,
    exists more,
      events (snd (sendScans t F libs st)) = (events st ++ more)%list
      /\ Forall (scanEvent t F) more
      /\ match fst (sendScans t F libs st) with
         | None => triggers more = map (fun l => (F, ID l)) libs
         | Some e =>
             exists pre L post w w',
               libs = (pre ++ L :: post)%list
               /\ triggers more = map (fun l => (F, ID l)) (pre ++ [L])
               /\ api_Scan (api t) F (ID L) w = (Some e, w')
         end.
Proof.
  induction libs as [|P libs IH]; intros st.
  - exists []. cbn. rewrite app_nil_r. repeat split. constructor.
  - cbn [sendScans]. unfold bind, emit, apiScan, call, ret.
    cbn [remote events].
    destruct (api_Scan (api t) F (ID P) (remote st)) as [[e|] w] eqn:HP.
    + eexists. cbn [fst snd events]. split; [now rewrite <- app_assoc|].
      split.
      * repeat constructor.
      * exists [], P, libs, (remote st), w. repeat split. exact HP.
    + match goal with |- context [sendScans t F libs ?s] =>
        destruct (IH s) as (more & Hev & Hok & Hres);
        set (st' := s) in * end.
      exists ([Logged (With (log t) [Str "path" F; Str "library" (Name P)])
                 TraceLevel [] "Sending scan request";
               ScanCall (api t) F (ID P);
               Logged (With (log t) [Str "path" F; Str "library" (Name P)])
                 InfoLevel [] "Scan moved to target"] ++ more)%list.
      split; [|split].
      * rewrite Hev. subst st'. cbn [events].
        rewrite <- !app_assoc. reflexivity.
      * apply Forall_app. split; [|exact Hok]. repeat constructor.
      * rewrite triggers_app.
        destruct (fst (sendScans t F libs st')) as [e|].
        -- destruct Hres as (pre & L & post & w1 & w2 & Hl & Ht & Hs).
           exists (P :: pre), L, post, w1, w2.
           split; [now rewrite Hl|]. split; [|exact Hs].
           rewrite Ht. reflexivity.
        -- rewrite Hres. reflexivity.
Qed.

Lemma Scan_outcome (t : target) (scan : autoscan.Scan) (st : State) :
  let F := rewrite t (autoscan.Folder scan) in
  let libs := fst (getScanLibrary t F) in
  exists more,
    events (snd (Scan t scan st)) = (events st ++ more)%list
    /\ Forall (scanEvent t F) more
    /\ match fst (Scan t scan st) with
       | None => triggers more = map (fun l => (F, ID l)) libs
       | Some e =>
           exists pre L post w w',
             libs = (pre ++ L :: post)%list
             /\ triggers more = map (fun l => (F, ID l)) (pre ++ [L])
             /\ api_Scan (api t) F (ID L) w = (Some e, w')
       end.
Proof.
  intros F libs. subst libs.
  rewrite (proj1 (getScanLibrary_resolved t F)).
  destruct (Scan_unfold t scan st) as [Hsome Hnone]. fold F in Hsome, Hnone.
  destruct (resolved t F) as [|P ps] eqn:HR.
  - destruct (Hnone eq_refl) as [e ->]. cbn [fst snd events].
    eexists. split; [reflexivity|]. split; [repeat constructor|reflexivity].
  - rewrite Hsome by discriminate. apply sendScans_outcome.
Qed.

(** X4: whatever the remote answers, [Scan] only adds to the trace,
    and what it adds are log lines and scan calls through the client of
    the target for the rewritten folder, never a version or catalog
    query; the libraries triggered are a leading part of the libraries
    the folder resolves to, in their order. *)
Theorem Scan_triggers_leading_part
    (t : target) (scan : autoscan.Scan) (st : State) :
  let F := rewrite t (autoscan.Folder scan) in
  exists more rest,
    events (snd (Scan t scan st)) = (events st ++ more)%list
    /\ Forall (scanEvent t F) more
    /\ map (fun l => (F, ID l)) (fst (getScanLibrary t F))
       = (triggers more ++ rest)%list.
Proof.
  intros F. destruct (Scan_outcome t scan st) as (more & Hev & Hok & Hres).
  fold F in Hok, Hres.
  destruct (fst (Scan t scan st)) as [e|].
  - destruct Hres as (pre & L & post & w & w' & Hl & Ht & _).
    exists more, (map (fun l => (F, ID l)) post).
    split; [exact Hev|]. split; [exact Hok|].
    rewrite Hl, Ht, <- map_app, <- app_assoc. reflexivity.
  - exists more, []. split; [exact Hev|]. split; [exact Hok|].
    now rewrite Hres, app_nil_r.
Qed.

(** What the loop of [Scan] returns, against what the remote answered
    and the state it is left in. *)
Lemma sendScans_result (t : target) (F : string)
    (libs : list (library LibraryID)) :
  forall st : State,
    (fst (sendScans t F libs st) = None ->
     allSucceed (api t) F libs (remote st)
     = Some (remote (snd (sendScans t F libs st)))
     /\ triggers (events (snd (sendScans t F libs st)))
        = (triggers (events st) ++ map (fun l => (F, ID l)) libs)%list)
    /\ (forall e, fst (sendScans t F libs st) = Some e ->
          exists pre L post w1,
            libs = (pre ++ L :: post)%list
            /\ allSucceed (api t) F pre (remote st) = Some w1
            /\ api_Scan (api t) F (ID L) w1
               = (Some e, remote (snd (sendScans t F libs st)))
            /\ triggers (events (snd (sendScans t F libs st)))
               = (triggers (events st)
                  ++ map (fun l => (F, ID l)) (pre ++ [L]))%list).
Proof.
  induction libs as [|P libs IH]; intros st.
  - cbn [sendScans]. unfold ret. cbn [fst snd allSucceed map]. split.
    + intros _. now rewrite app_nil_r.
    + discriminate.
  - destruct (api_Scan (api t) F (ID P) (remote st)) as [[e0|] w] eqn:HP.
    + destruct (sendScans_step_fail t F P libs st e0 w HP)
        as (Hfst & Hrem & Htr).
      split.
      * rewrite Hfst. discriminate.
      * intros e He. rewrite Hfst in He. injection He as <-.
        exists [], P, libs, (remote st). cbn [app allSucceed].
        repeat split; [now rewrite Hrem|exact Htr].
    + destruct (sendScans_step_ok t F P libs st w HP)
        as (st' & Heq & Hrem & Htr).
      rewrite Heq. destruct (IH st') as [Hnil Herr]. split.
      * intros Hn. destruct (Hnil Hn) as [Hall Ht].
        cbn [allSucceed]. rewrite HP, <- Hrem. split; [exact Hall|].
        rewrite Ht, Htr, <- app_assoc. reflexivity.
      * intros e He.
        destruct (Herr e He) as (pre & L & post & w1 & Hl & Hall & Hs & Ht).
        exists (P :: pre), L, post, w1.
        split; [now rewrite Hl|]. split; [|split; [exact Hs|]].
        -- cbn [allSucceed]. rewrite HP, <- Hrem. exact Hall.
        -- rewrite Ht, Htr, <- app_assoc. reflexivity.
Qed.

(** X5: the value [Scan] returns tells what was done, from the state
    of the remote in which [Scan] starts.  When it returns no error, the
    triggers of all the libraries the folder resolves to, issued one
    after the other from that state, have succeeded, the remote is left
    in the state after the last of them, and the triggers on the trace
    are these, once and in order.  When it returns an error, the
    triggers of a leading part of these libraries have succeeded from
    that state, the error is what the remote answered, in the state so
    reached, to the trigger of the next library, the remote is left in
    the state after that answer, and the triggers on the trace are
    those up to that library. *)
Theorem Scan_result_tells_triggers
    (t : target) (scan : autoscan.Scan) (st : State) :
  let F := rewrite t (autoscan.Folder scan) in
  let libs := fst (getScanLibrary t F) in
  let out := Scan t scan st in
  (fst out = None ->
   allSucceed (api t) F libs (remote st) = Some (remote (snd out))
   /\ triggers (events (snd out))
      = (triggers (events st) ++ map (fun l => (F, ID l)) libs)%list)
  /\ (forall e, fst out = Some e ->
        exists pre L post w1,
          libs = (pre ++ L :: post)%list
          /\ allSucceed (api t) F pre (remote st) = Some w1
          /\ api_Scan (api t) F (ID L) w1 = (Some e, remote (snd out))
          /\ triggers (events (snd out))
             = (triggers (events st)
                ++ map (fun l => (F, ID l)) (pre ++ [L]))%list).
Proof.
  intros F libs out. subst libs out.
  rewrite (proj1 (getScanLibrary_resolved t F)).
  destruct (Scan_unfold t scan st) as [Hsome Hnone]. fold F in Hsome, Hnone.
  destruct (resolved t F) as [|P ps] eqn:HR.
  - destruct (Hnone eq_refl) as [e ->]. cbn [fst snd remote events].
    split; [|discriminate]. intros _. split; [reflexivity|].
    rewrite triggers_app. cbn. now rewrite !app_nil_r.
  - rewrite Hsome by discriminate. apply sendScans_result.
Qed.

End DispatcherMore.

(** ** More on construction *)

Section ConstructionMore.

Context {C : Collaborators}.

(** X6: [New] returns a target or an error, never both and never
    neither. *)
Theorem New_target_or_error (c : Config) (st : State) :
  (exists t, fst (New c st) = (Some t, None))
  \/ (exists e, fst (New c st) = (None, Some e)).
Proof.
  destruct (NewRewriter (Rewrite c)) as [rw [e|]] eqn:Hrw.
  { right. exists e. unfold New. now rewrite Hrw. }
  destruct (parseTimeout (Timeout c)) as [timeout [e|]] eqn:Hto.
  { right. exists e. unfold New. now rewrite Hrw, Hto. }
  pose proof (New_after_version c st rw timeout Hrw Hto) as H.
  cbv zeta in H.
  destruct (snd (fst (api_Version (clientOf c timeout) (remote st))))
    as [e|].
  { right. exists e. now rewrite H. }
  destruct (isSupportedVersion _).
  - destruct (snd (fst (api_Libraries _ _))) as [e|].
    + right. exists e. now rewrite H.
    + left. destruct H as [st4 H]. eexists. now rewrite H.
  - right. eexists. now rewrite H.
Qed.

(** X7: a configuration that is wrong in itself never reaches the
    remote: when the rewrite rules are refused, or they are accepted
    and the timeout is refused, [New] returns that error without a
    call, a log line or a change of the remote. *)
Theorem New_bad_configuration_makes_no_call (c : Config) (st : State) :
  (forall rw e,
      NewRewriter (Rewrite c) = (rw, Some e) ->
      New c st = ((None, Some e), st))
  /\ (forall rw d e,
        NewRewriter (Rewrite c) = (rw, None) ->
        parseTimeout (Timeout c) = (d, Some e) ->
        New c st = ((None, Some e), st)).
Proof.
  split.
  - intros rw e Hrw. unfold New. now rewrite Hrw.
  - intros rw d e Hrw Hto. unfold New. now rewrite Hrw, Hto.
Qed.

(** X8: when everything is in order, [New] asks the remote for its
    version and then for its catalog, once each and in this order, and
    returns the target that holds the catalog as the remote gave it,
    the rewriter made of the rules, and the client both queries went
    through. *)
Theorem New_success
    (c : Config) (st : State) (rw : Rewriter) (timeout : time.Duration)
    (v : string) (w1 w2 : World) (libs : list (library LibraryID))
    (Hrw : NewRewriter (Rewrite c) = (rw, None))
    (Hto : parseTimeout (Timeout c) = (timeout, None))
    (Hv : api_Version (clientOf c timeout) (remote st) = ((v, None), w1))
    (Hsup : isSupportedVersion v = true)
    (Hl : api_Libraries (clientOf c timeout) w1 = ((libs, None), w2)) :
  fst (New c st)
  = (Some {| url := URL c; token := Token c; libraries := libs;
             log := loggerOf c; rewrite := rw;
             api := clientOf c timeout |}, None)
  /\ remote (snd (New c st)) = w2
  /\ events (snd (New c st))
     = (events st
        ++ [VersionCall (clientOf c timeout);
            Logged (loggerOf c) DebugLevel [] ("Plex version: " ++ v);
            LibrariesCall (clientOf c timeout);
            Logged (loggerOf c) DebugLevel
              [Interface "libraries" (map Path libs)]
              "Retrieved libraries"])%list.
Proof.
  unfold New, bind, ret, emit, Version, Libraries, call.
  rewrite Hrw, Hto.
  fold (loggerOf c). fold (productOf c). fold (identifierOf c).
  fold (clientOf c timeout). cbv zeta. rewrite Hv.
  cbn [fst snd remote events]. rewrite Hsup. cbn [negb remote events].
  rewrite Hl. cbn [fst snd remote events].
  repeat split. rewrite <- !app_assoc. reflexivity.
Qed.

(** X9: an error of the remote during construction is returned as the
    client gave it, with no target: an error of the version query
    before the catalog is asked for, an error of the catalog query
    after the version was accepted. *)
Theorem New_remote_error_verbatim
    (c : Config) (st : State) (rw : Rewriter) (timeout : time.Duration)
    (Hrw : NewRewriter (Rewrite c) = (rw, None))
    (Hto : parseTimeout (Timeout c) = (timeout, None)) :
  (forall v e w1,
      api_Version (clientOf c timeout) (remote st) = ((v, Some e), w1) ->
      fst (New c st) = (None, Some e)
      /\ remote (snd (New c st)) = w1
      /\ events (snd (New c st))
         = (events st ++ [VersionCall (clientOf c timeout)])%list)
  /\ (forall v w1 libs e w2,
        api_Version (clientOf c timeout) (remote st) = ((v, None), w1) ->
        isSupportedVersion v = true ->
        api_Libraries (clientOf c timeout) w1 = ((libs, Some e), w2) ->
        fst (New c st) = (None, Some e)
        /\ remote (snd (New c st)) = w2).
Proof.
  pose proof (New_after_version c st rw timeout Hrw Hto) as H.
  cbv zeta in H. split.
  - intros v e w1 Hv. rewrite Hv in H. cbn [fst snd] in H.
    rewrite H. repeat split.
  - intros v w1 libs e w2 Hv Hsup Hl. rewrite Hv in H.
    cbn [fst snd remote] in H. rewrite Hsup, Hl in H. cbn [fst snd] in H.
    rewrite H. repeat split.
Qed.

End ConstructionMore.

(** ** Cutting and joining at one byte *)

Module SplitFacts.

Import strings.

Lemma hasByte_app (a r : string) (c : ascii) :
  hasByte (a ++ r) c = hasByte a c || hasByte r c.
Proof.
  induction a as [|d a IH]; simpl; [reflexivity|].
  now rewrite IH, orb_assoc.
Qed.

Lemma HasPrefix_sep1 (d : ascii) (s : string) (c : ascii) :
  HasPrefix (String d s) (sep1 c) = Ascii.eqb d c.
Proof. simpl. apply andb_true_r. Qed.

Lemma genSplit_cons (c d : ascii) (cur s : string) :
  genSplit (sep1 c) 0 cur (String d s)
  = if Ascii.eqb d c then cur :: genSplit (sep1 c) 0 "" s
    else genSplit (sep1 c) 0 (cur ++ String d "") s.
Proof.
  unfold genSplit at 1; fold genSplit. rewrite HasPrefix_sep1. reflexivity.
Qed.

Lemma append_cons_assoc (cur : string) (d : ascii) (s : string) :
  (cur ++ String d "") ++ s = cur ++ String d s.
Proof. now rewrite SpaceFacts.append_assoc. Qed.

(** A string without the separator is one piece. *)
Lemma genSplit_free (c : ascii) (p : string) :
  forall cur, hasByte p c = false -> genSplit (sep1 c) 0 cur p = [cur ++ p].
Proof.
  induction p as [|d p IH]; intros cur Hp.
  - simpl. now rewrite SpaceFacts.append_empty_r.
  - simpl in Hp. apply orb_false_iff in Hp as [Hd Hp].
    rewrite genSplit_cons, Hd, IH by exact Hp.
    now rewrite append_cons_assoc.
Qed.

(** Cutting distributes over the separator. *)
Lemma genSplit_app (c : ascii) (a r : string) :
  forall cur,
    genSplit (sep1 c) 0 cur (a ++ String c r)
    = (genSplit (sep1 c) 0 cur a ++ genSplit (sep1 c) 0 "" r)%list.
Proof.
  induction a as [|d a IH]; intros cur.
  - cbn [append]. rewrite genSplit_cons, Ascii.eqb_refl. reflexivity.
  - cbn [append]. rewrite !genSplit_cons.
    destruct (Ascii.eqb d c); rewrite IH; reflexivity.
Qed.

Lemma genSplit_nonempty (c : ascii) (s : string) :
  forall cur, genSplit (sep1 c) 0 cur s <> [].
Proof.
  induction s as [|d s IH]; intros cur; [discriminate|].
  rewrite genSplit_cons. destruct (Ascii.eqb d c); [discriminate|apply IH].
Qed.

(** The first piece starts with what was read so far. *)
Lemma genSplit_head (c : ascii) (s : string) :
  forall cur, exists x tl, genSplit (sep1 c) 0 cur s = (cur ++ x) :: tl.
Proof.
  induction s as [|d s IH]; intros cur.
  - exists "", []. simpl. now rewrite SpaceFacts.append_empty_r.
  - rewrite genSplit_cons. destruct (Ascii.eqb d c).
    + exists "". eexists. now rewrite SpaceFacts.append_empty_r.
    + destruct (IH (cur ++ String d "")) as (x & tl & ->).
      exists (String d x), tl. now rewrite append_cons_assoc.
Qed.

(** No piece contains the separator. *)
Lemma genSplit_pieces_free (c : ascii) (s : string) :
  forall cur,
    hasByte cur c = false ->
    Forall (fun l => hasByte l c = false) (genSplit (sep1 c) 0 cur s).
Proof.
  induction s as [|d s IH]; intros cur Hcur.
  - repeat constructor. exact Hcur.
  - rewrite genSplit_cons. destruct (Ascii.eqb d c) eqn:Hd.
    + constructor; [exact Hcur|]. now apply IH.
    + apply IH. rewrite hasByte_app, Hcur. simpl. now rewrite Hd.
Qed.

Lemma Join_cons (e : string) (l : list string) (sep : string) :
  l <> [] -> Join (e :: l) sep = e ++ sep ++ Join l sep.
Proof. destruct l; [congruence|reflexivity]. Qed.

(** Joining the pieces gives the string back. *)
Lemma Join_genSplit (c : ascii) (s : string) :
  forall cur, Join (genSplit (sep1 c) 0 cur s) (sep1 c) = cur ++ s.
Proof.
  induction s as [|d s IH]; intros cur.
  { simpl. now rewrite SpaceFacts.append_empty_r. }
  rewrite genSplit_cons. destruct (Ascii.eqb_spec d c) as [->|Hd].
  - rewrite Join_cons by apply genSplit_nonempty.
    now rewrite IH.
  - now rewrite IH, append_cons_assoc.
Qed.

Lemma Join_app (l1 l2 : list string) (sep : string) :
  l1 <> [] -> l2 <> [] ->
  Join (l1 ++ l2) sep = Join l1 sep ++ sep ++ Join l2 sep.
Proof.
  intros H1 H2. induction l1 as [|e l1 IH]; [congruence|].
  destruct l1 as [|e' l1].
  - cbn [app]. now rewrite Join_cons.
  - rewrite <- app_comm_cons, Join_cons by discriminate.
    rewrite IH by discriminate.
    rewrite (Join_cons e (e' :: l1)) by discriminate.
    now rewrite !SpaceFacts.append_assoc.
Qed.

(** Cutting what was joined gives the pieces back, when none of them
    contains the separator. *)
Lemma genSplit_Join (c : ascii) (l : list string) :
  l <> [] ->
  Forall (fun e => hasByte e c = false) l ->
  forall cur,
    hasByte cur c = false ->
    genSplit (sep1 c) 0 cur (Join l (sep1 c))
    = match l with
      | e :: l' => (cur ++ e) :: l'
      | [] => []
      end.
Proof.
  induction l as [|e l IH]; intros Hne Hfree cur Hcur; [congruence|].
  inversion Hfree as [|? ? He Hl]; subst.
  destruct l as [|e' l].
  - cbn [Join]. now apply genSplit_free.
  - rewrite Join_cons by discriminate. cbn [sep1 append].
    rewrite genSplit_app, genSplit_free by exact He.
    rewrite (IH ltac:(discriminate) Hl "" eq_refl). reflexivity.
Qed.

Lemma Split_sep1 (s : string) (c : ascii) :
  Split s (sep1 c) = genSplit (sep1 c) 0 "" s.
Proof. reflexivity. Qed.

End SplitFacts.

(** ** More on the version gate *)

Section VersionGateMore.

Import Numeral.

Lemma Split_two (p0 p1 : string) :
  strings.hasByte p0 "." = false -> strings.hasByte p1 "." = false ->
  strings.Split (p0 ++ "." ++ p1) "." = [p0; p1].
Proof.
  intros H0 H1. change "." with (sep1 ".").
  rewrite SplitFacts.Split_sep1. cbn [sep1 append].
  rewrite SplitFacts.genSplit_app, !SplitFacts.genSplit_free by assumption.
  reflexivity.
Qed.

Lemma Split_two_more (p0 p1 rest : string) :
  strings.hasByte p0 "." = false -> strings.hasByte p1 "." = false ->
  exists tl, strings.Split (p0 ++ "." ++ p1 ++ "." ++ rest) "." = p0 :: p1 :: tl.
Proof.
  intros H0 H1. change "." with (sep1 ".").
  rewrite SplitFacts.Split_sep1. cbn [sep1 append].
  rewrite SplitFacts.genSplit_app, SplitFacts.genSplit_free by assumption.
  rewrite SplitFacts.genSplit_app, SplitFacts.genSplit_free by assumption.
  eexists. reflexivity.
Qed.

(** X10: only the first two components count: whatever follows the
    minor component and its ["."], a patch level or a build tag, does
    not change the verdict. *)
Theorem isSupportedVersion_ignores_rest (p0 p1 rest : string)
    (H0 : strings.hasByte p0 "." = false)
    (H1 : strings.hasByte p1 "." = false) :
  isSupportedVersion (p0 ++ "." ++ p1 ++ "." ++ rest)
  = isSupportedVersion (p0 ++ "." ++ p1).
Proof.
  rewrite !isSupportedVersion_accepts.
  destruct (Split_two_more p0 p1 rest H0 H1) as [tl ->].
  now rewrite (Split_two p0 p1 H0 H1).
Qed.

Lemma allDigits_no_dot (p : string) :
  allDigits p = true -> strings.hasByte p "." = false.
Proof.
  induction p as [|c p IH]; [reflexivity|]. simpl. intros H.
  apply andb_true_iff in H as [Hc Hp]. rewrite (IH Hp), orb_false_r.
  destruct (Ascii.eqb_spec c ".") as [->|_]; [discriminate Hc|reflexivity].
Qed.

Lemma bestEffortClamped_digits (p : string) :
  p <> "" -> allDigits p = true -> bestEffortClamped p = digitsValue 0 p.
Proof.
  intros Hne Hd. destruct p as [|c p]; [congruence|].
  assert (Hsign : signOf (String c p) = (false, String c p)).
  { unfold signOf. simpl in Hd. apply andb_true_iff in Hd as [Hc _].
    destruct (Ascii.eqb_spec c "-") as [->|_]; [discriminate Hc|].
    destruct (Ascii.eqb_spec c "+") as [->|_]; [discriminate Hc|].
    reflexivity. }
  unfold bestEffortClamped, numeric, value. rewrite Hsign, Hd. reflexivity.
Qed.

(** X11: on versions written with digits the gate compares numbers,
    not text: for a major and a minor component that are non-empty
    strings of decimal digits, whatever their length and leading
    zeros, the version is supported exactly when major is at least 2,
    or major is 1 and minor at least 20. *)
Theorem isSupportedVersion_compares_numbers (p0 p1 : string)
    (Hne0 : p0 <> "") (Hd0 : allDigits p0 = true)
    (Hne1 : p1 <> "") (Hd1 : allDigits p1 = true) :
  isSupportedVersion (p0 ++ "." ++ p1) = true
  <-> 2 <= digitsValue 0 p0
      \/ (digitsValue 0 p0 = 1 /\ 20 <= digitsValue 0 p1).
Proof.
  rewrite isSupportedVersion_accepts.
  rewrite (Split_two p0 p1 (allDigits_no_dot p0 Hd0) (allDigits_no_dot p1 Hd1)).
  rewrite (bestEffortClamped_digits p0 Hne0 Hd0),
    (bestEffortClamped_digits p1 Hne1 Hd1).
  unfold accepts.
  now rewrite orb_true_iff, andb_true_iff, !Z.leb_le, Z.eqb_eq.
Qed.

(** X12: a version that does not start with a decimal digit or a sign
    is unsupported, whatever follows: a leading letter as in v2.0.0, a
    leading space or a leading ["."] all read as major 0. *)
Theorem isSupportedVersion_rejects_bad_first_byte (c : ascii) (s : string)
    (Hdigit : strconv.isDigit c = false)
    (Hplus : c <> "+"%char) (Hminus : c <> "-"%char) :
  isSupportedVersion (String c s) = false.
Proof.
  rewrite isSupportedVersion_accepts.
  change "." with (sep1 ".").
  rewrite SplitFacts.Split_sep1, SplitFacts.genSplit_cons.
  assert (Hzero : forall x, bestEffortClamped (String c x) = 0).
  { intros x. unfold bestEffortClamped, numeric, value, overflowsEarly, signOf.
    destruct (Ascii.eqb_spec c "-") as [->|_]; [congruence|].
    destruct (Ascii.eqb_spec c "+") as [->|_]; [congruence|].
    cbn [fst allDigits leadingDigits]. rewrite Hdigit. reflexivity. }
  destruct (Ascii.eqb c ".").
  - destruct (strings.genSplit _ 0 "" s) as [|p1 tl]; reflexivity.
  - destruct (SplitFacts.genSplit_head "." s ("" ++ String c ""))
      as (x & tl & ->).
    cbn [append]. destruct tl as [|p1 tl]; [reflexivity|].
    now rewrite Hzero.
Qed.

End VersionGateMore.

(** ** More on the timeout *)

Section TimeoutMore.

Lemma wrapI64_range (z : Z) : minInt64 <= wrapI64 z <= maxInt64.
Proof.
  unfold wrapI64, minInt64, maxInt64.
  pose proof (Z.mod_pos_bound (z + 2 ^ 63) (2 ^ 64) ltac:(reflexivity)).
  change (2 ^ 64) with (2 * 2 ^ 63) in *. lia.
Qed.

Lemma ParseDuration_range (s : string) :
  minInt64 <= fst (time.ParseDuration s) <= maxInt64.
Proof.
  assert (H0 : minInt64 <= 0 <= maxInt64) by (split; discriminate).
  unfold time.ParseDuration.
  destruct (match s with
            | EmptyString => _
            | String c s' => _
            end) as [neg body].
  destruct (String.eqb body "0"); [exact H0|].
  destruct (String.eqb body ""); [exact H0|].
  destruct (time.groups _ s 0 body) as [d [e|]]; [exact H0|].
  destruct neg; [apply wrapI64_range|].
  destruct (2 ^ 63 - 1 <? d); [exact H0|apply wrapI64_range].
Qed.

(** X13: the duration [parseTimeout] returns is never negative and
    fits an [int64]; with an error it is zero; and it is zero without
    an error only for a blank string. *)
Theorem parseTimeout_result_range (raw : string) :
  0 <= fst (parseTimeout raw) <= maxInt64
  /\ (snd (parseTimeout raw) <> None -> fst (parseTimeout raw) = 0)
  /\ (snd (parseTimeout raw) = None -> fst (parseTimeout raw) = 0 ->
      Blank raw).
Proof.
  assert (H0 : 0 <= 0 <= maxInt64) by (split; [lia|discriminate]).
  pose proof (ParseDuration_range raw) as Hr.
  destruct (parseTimeout_cases raw) as [[Hb ->]|[_ (d & err & Hp & H)]].
  - cbn [fst snd]. split; [exact H0|]. split; [reflexivity|].
    intros _ _. exact Hb.
  - rewrite Hp in Hr. cbn [fst] in Hr.
    destruct err as [e|].
    + rewrite H. cbn [fst snd]. split; [exact H0|]. split; [reflexivity|].
      discriminate.
    + destruct (Z.leb_spec d 0).
      * rewrite H. cbn [fst snd]. split; [exact H0|]. split; [reflexivity|].
        discriminate.
      * rewrite H. cbn [fst snd]. split; [lia|]. split; [congruence|lia].
Qed.

(** X14: the white space around a duration is not trimmed away: a
    string that is not blank and starts with a byte other than a
    decimal digit, a sign or ["."], a space for one, is refused with
    the error of [time.ParseDuration] wrapped. *)
Theorem parseTimeout_rejects_bad_first_byte (c : ascii) (s : string)
    (Hnb : ~ Blank (String c s))
    (Hdigit : strconv.isDigit c = false)
    (Hplus : c <> "+"%char) (Hminus : c <> "-"%char)
    (Hdot : c <> "."%char) :
  parseTimeout (String c s)
  = (0, Some (Wrapf "invalid plex timeout %q: %w" [String c s]
                (time.invalid (String c s)))).
Proof.
  assert (HP : time.ParseDuration (String c s)
               = (0, Some (time.invalid (String c s)))).
  { unfold time.ParseDuration.
    destruct (Ascii.eqb_spec c "-") as [->|_]; [congruence|].
    destruct (Ascii.eqb_spec c "+") as [->|_]; [congruence|].
    cbn [orb].
    assert (H0 : String.eqb (String c s) "0" = false).
    { destruct (String.eqb_spec (String c s) "0") as [Heq|]; [|reflexivity].
      injection Heq as -> _. discriminate Hdigit. }
    rewrite H0. cbn [String.eqb String.length time.groups time.group].
    destruct (Ascii.eqb_spec c ".") as [->|_]; [congruence|].
    rewrite Hdigit. reflexivity. }
  destruct (parseTimeout_cases (String c s))
    as [[Hb _]|[_ (d & err & Hp & H)]]; [contradiction|].
  rewrite HP in Hp. injection Hp as <- <-. exact H.
Qed.

End TimeoutMore.

(** ** Redacting the configuration *)

Module RedactFacts.

Import strings.
Import web.

Lemma Blank_spaces (n : nat) : Blank (spaces n).
Proof.
  induction n as [|n IH]; [constructor|].
  change (spaces (S n)) with (" " ++ spaces n).
  apply Blank_space; [|exact IH]. unfold spaceRunes. simpl. tauto.
Qed.

Lemma trimLeft_blank (pre x : string) :
  Blank pre -> trimLeft 0 (pre ++ x) = trimLeft 0 x.
Proof.
  induction 1 as [|w s Hw Hs IH]; [reflexivity|].
  now rewrite SpaceFacts.append_assoc, SpaceFacts.trimLeft_rune.
Qed.

Lemma find_none_all {A : Type} (f : A -> bool) (l : list A) :
  (forall x, In x l -> f x = false) -> find f l = None.
Proof.
  induction l as [|a l IH]; intros H; [reflexivity|]. simpl.
  rewrite (H a (or_introl eq_refl)). apply IH. intros x Hx. apply H. now right.
Qed.

Lemma isLead_false (c : ascii) (w : string) :
  isLead c = false -> In w spaceRunes ->
  forall s, HasPrefix (String c s) w = false.
Proof.
  intros Hl Hw s. unfold isLead in Hl.
  pose proof (SpaceFacts.spaceRunes_nonempty w Hw) as Hne.
  destruct w as [|d w']; [congruence|].
  assert (Hd : Ascii.eqb d c = false).
  { destruct (Ascii.eqb d c) eqn:Hd; [|reflexivity].
    rewrite <- Hl. symmetry. apply existsb_exists.
    exists (String d w'). now split. }
  simpl. rewrite Ascii.eqb_sym, Hd. reflexivity.
Qed.

Lemma trimLeft_nonlead (c : ascii) (s : string) :
  isLead c = false -> trimLeft 0 (String c s) = String c s.
Proof.
  intros Hl. unfold trimLeft; fold trimLeft. unfold leadingSpace.
  rewrite find_none_all; [reflexivity|].
  intros w Hw. now apply isLead_false.
Qed.

Lemma Blank_first_lead (c : ascii) (s : string) :
  Blank (String c s) -> isLead c = true.
Proof.
  intros H. remember (String c s) as t eqn:Ht.
  destruct H as [|w s0 Hw Hs]; [discriminate|].
  pose proof (SpaceFacts.spaceRunes_nonempty w Hw) as Hne.
  destruct w as [|d w']; [congruence|].
  simpl in Ht. injection Ht as -> _.
  unfold isLead. apply existsb_exists. exists (String c w').
  split; [exact Hw|apply Ascii.eqb_refl].
Qed.

(** The right trim removes a blank suffix and nothing else. *)
Lemma trimRightRev_blank_prefix (n : nat) :
  forall r, (String.length r <= n)%nat ->
    exists x, r = x ++ trimRightRev 0 r /\ Blank (rev x).
Proof.
  induction n as [|n IH]; intros r Hlen.
  - destruct r; [|simpl in Hlen; lia]. exists "". split; [reflexivity|constructor].
  - destruct (String.eqb_spec r "") as [->|Hne].
    + exists "". split; [reflexivity|constructor].
    + destruct (SpaceFacts.trimRightRev_step r Hne)
        as [[_ Heq]|(w & rest & Hin & Hs & Heq)].
      * exists "". split; [now rewrite Heq|constructor].
      * assert (Hrest : (String.length rest <= n)%nat).
        { pose proof (SpaceFacts.spaceRunes_nonempty w Hin).
          rewrite Hs, SpaceFacts.length_append, SpaceFacts.rev_length in Hlen.
          destruct w; [congruence|]. simpl in Hlen. lia. }
        destruct (IH rest Hrest) as (x & Hx & Hb).
        exists (rev w ++ x). split.
        -- rewrite Heq, SpaceFacts.append_assoc, <- Hx. exact Hs.
        -- rewrite SpaceFacts.rev_append, SpaceFacts.rev_involutive.
           apply SpaceFacts.Blank_app; [exact Hb|].
           now apply SpaceFacts.Blank_rune.
Qed.

(** [TrimSpace] takes a blank string off each end. *)
Lemma TrimSpace_decompose (s : string) :
  exists pre post,
    Blank pre /\ Blank post /\ s = pre ++ TrimSpace s ++ post
    /\ trimLeft 0 s = TrimSpace s ++ post.
Proof.
  destruct (SpaceFacts.trimLeft_blank_prefix _ s (Nat.le_refl _))
    as (pre & Hpre & Hs).
  destruct (trimRightRev_blank_prefix _ (rev (trimLeft 0 s)) (Nat.le_refl _))
    as (x & Hx & Hb).
  assert (Ht : trimLeft 0 s = TrimSpace s ++ rev x).
  { unfold TrimSpace.
    rewrite <- (SpaceFacts.rev_involutive (trimLeft 0 s)) at 1.
    rewrite Hx at 1. apply SpaceFacts.rev_append. }
  exists pre, (rev x). split; [exact Hpre|]. split; [exact Hb|].
  split; [|exact Ht]. now rewrite <- Ht.
Qed.

(** A string whose bytes start no white-space rune is not cut into by
    a blank suffix. *)
Lemma prefix_before_blank (k : string) :
  forall v mid post,
    noLead k = true -> k ++ v = mid ++ post -> Blank post ->
    HasPrefix mid k = true.
Proof.
  induction k as [|c k IH]; intros v mid post Hk Heq Hb; [reflexivity|].
  unfold noLead in Hk. simpl in Hk.
  apply negb_true_iff, orb_false_iff in Hk as [Hc Hk].
  destruct mid as [|d mid].
  - simpl in Heq. rewrite <- Heq in Hb.
    apply Blank_first_lead in Hb. congruence.
  - simpl in Heq. injection Heq as <- Heq. simpl.
    rewrite Ascii.eqb_refl. cbn [andb].
    apply (IH v mid post); [|exact Heq|exact Hb].
    unfold noLead. now rewrite Hk.
Qed.

(** After trimming, a line starts with its first bytes that are not
    white space. *)
Lemma TrimSpace_keeps_prefix (pre k v : string) :
  Blank pre -> k <> "" -> noLead k = true ->
  HasPrefix (TrimSpace (pre ++ k ++ v)) k = true.
Proof.
  intros Hpre Hne Hk.
  destruct (TrimSpace_decompose (pre ++ k ++ v))
    as (pre' & post & _ & Hpost & _ & Ht).
  rewrite trimLeft_blank in Ht by exact Hpre.
  destruct k as [|c k]; [congruence|].
  assert (Hc : isLead c = false).
  { unfold noLead in Hk. simpl in Hk.
    now apply negb_true_iff, orb_false_iff in Hk as [Hc _]. }
  cbn [append] in Ht. rewrite trimLeft_nonlead in Ht by exact Hc.
  exact (prefix_before_blank (String c k) v _ post Hk Ht Hpost).
Qed.

Lemma HasPrefix_other_first (m : string) (a c : ascii) (k1 k2 : string) :
  HasPrefix m (String a k1) = true -> a <> c ->
  HasPrefix m (String c k2) = false.
Proof.
  destruct m as [|d m]; [discriminate|]. simpl.
  intros H Hac. apply andb_true_iff in H as [Hd _].
  apply Ascii.eqb_eq in Hd. subst d.
  destruct (Ascii.eqb_spec a c); [congruence|reflexivity].
Qed.

(** The indentation [redactLine] keeps is the run of spaces the line
    starts with. *)
Lemma TrimLeft_spaces (n : nat) (r : string) :
  HasPrefix r " " = false -> TrimLeft (spaces n ++ r) " " = r.
Proof.
  intros Hr. induction n as [|n IH]; [|exact IH].
  destruct r as [|c r]; [reflexivity|].
  cbn [HasPrefix] in Hr. rewrite andb_true_r in Hr.
  cbn [spaces append TrimLeft hasByte].
  rewrite Ascii.eqb_sym, Hr. reflexivity.
Qed.

Lemma substring_app (a r : string) :
  substring 0 (String.length a) (a ++ r) = a.
Proof.
  induction a as [|c a IH]; simpl; [now destruct r|now rewrite IH].
Qed.

Lemma redactLine_indent (n : nat) (r key : string) :
  HasPrefix r " " = false ->
  redactLine (spaces n ++ r) key = spaces n ++ key ++ mask.
Proof.
  intros Hr. unfold redactLine, slice, len.
  rewrite (TrimLeft_spaces n r Hr), SpaceFacts.length_append.
  replace (Z.to_nat (Z.of_nat (String.length (spaces n) + String.length r)
                     - Z.of_nat (String.length r) - 0))
    with (String.length (spaces n)) by lia.
  change (Z.to_nat 0) with 0%nat.
  now rewrite substring_app.
Qed.

(** Every line is some spaces and a rest that starts with none. *)
Lemma line_indent (line : string) :
  exists n r, line = spaces n ++ r /\ HasPrefix r " " = false.
Proof.
  induction line as [|c line (n & r & Hl & Hr)].
  - exists 0%nat, "". split; reflexivity.
  - destruct (Ascii.eqb_spec c " ") as [->|Hc].
    + exists (S n), r. split; [now rewrite Hl|exact Hr].
    + exists 0%nat, (String c line). split; [reflexivity|].
      simpl. destruct (Ascii.eqb_spec c " "); [congruence|reflexivity].
Qed.

Lemma hasByte_spaces (n : nat) (c : ascii) :
  c <> " "%char -> hasByte (spaces n) c = false.
Proof.
  intros Hc. induction n as [|n IH]; [reflexivity|].
  cbn [spaces hasByte]. rewrite IH.
  destruct (Ascii.eqb_spec " " c); [congruence|reflexivity].
Qed.

(** What becomes of a line: itself, or spaces, a key and the mask. *)
Lemma redactedLine_cases (line : string) :
  redactedLine line = line
  \/ exists n k, In k keys /\ redactedLine line = spaces n ++ k ++ mask.
Proof.
  destruct (line_indent line) as (n & r & -> & Hr).
  unfold redactedLine.
  destruct (HasPrefix _ "token:").
  { right. exists n, "token". split; [simpl; tauto|now apply redactLine_indent]. }
  destruct (HasPrefix _ "password:").
  { right. exists n, "password". split; [simpl; tauto|now apply redactLine_indent]. }
  destruct (HasPrefix _ "apiKey:").
  { right. exists n, "apiKey". split; [simpl; tauto|now apply redactLine_indent]. }
  now left.
Qed.

(** A line that is spaces, other white space that does not start with
    a space, a key, a colon and anything: the spaces, the key and the
    mask are what is left. *)
Lemma redactedLine_key (n : nat) (ws k v : string) :
  Blank ws -> HasPrefix ws " " = false -> In k keys ->
  redactedLine (spaces n ++ ws ++ k ++ ":" ++ v) = spaces n ++ k ++ mask.
Proof.
  intros Hws Hsp Hk.
  assert (Hr : HasPrefix (ws ++ k ++ ":" ++ v) " " = false).
  { destruct ws as [|c ws]; [|exact Hsp].
    simpl in Hk. destruct Hk as [<-|[<-|[<-|[]]]]; reflexivity. }
  assert (Hpre : forall key,
             key <> "" -> noLead key = true ->
             HasPrefix (TrimSpace (spaces n ++ ws ++ key ++ v)) key = true).
  { intros key Hne Hnl.
    rewrite <- SpaceFacts.append_assoc.
    apply TrimSpace_keeps_prefix; [|exact Hne|exact Hnl].
    apply SpaceFacts.Blank_app; [apply Blank_spaces|exact Hws]. }
  unfold redactedLine.
  simpl in Hk. destruct Hk as [<-|[<-|[<-|[]]]].
  - pose proof (Hpre "token:" ltac:(discriminate) eq_refl) as Hp.
    cbn [append] in Hp |- *. rewrite Hp. now apply redactLine_indent.
  - pose proof (Hpre "password:" ltac:(discriminate) eq_refl) as Hp.
    cbn [append] in Hp |- *.
    rewrite (HasPrefix_other_first _ "p" "t" _ "oken:" Hp) by discriminate.
    rewrite Hp. now apply redactLine_indent.
  - pose proof (Hpre "apiKey:" ltac:(discriminate) eq_refl) as Hp.
    cbn [append] in Hp |- *.
    rewrite (HasPrefix_other_first _ "a" "t" _ "oken:" Hp) by discriminate.
    rewrite (HasPrefix_other_first _ "a" "p" _ "assword:" Hp) by discriminate.
    rewrite Hp. now apply redactLine_indent.
Qed.

End RedactFacts.

Section Redaction.

Import strings.
Import web.

Lemma newline_sep1 : newline = sep1 lf.
Proof. reflexivity. Qed.

Lemma key_free (k : string) : In k keys -> hasByte k lf = false.
Proof. simpl. intros [<-|[<-|[<-|[]]]]; reflexivity. Qed.

Lemma redactedLine_free (l : string) :
  hasByte l lf = false -> hasByte (redactedLine l) lf = false.
Proof.
  intros Hl.
  destruct (RedactFacts.redactedLine_cases l) as [->|(n & k & Hk & ->)];
    [exact Hl|].
  rewrite !SplitFacts.hasByte_app, RedactFacts.hasByte_spaces by discriminate.
  now rewrite (key_free k Hk).
Qed.

Lemma Split_lines_free (raw : string) :
  Forall (fun l => hasByte l lf = false) (Split raw newline).
Proof.
  rewrite newline_sep1, SplitFacts.Split_sep1.
  now apply SplitFacts.genSplit_pieces_free.
Qed.

Lemma Split_lines_nonempty (raw : string) : Split raw newline <> [].
Proof.
  rewrite newline_sep1, SplitFacts.Split_sep1.
  apply SplitFacts.genSplit_nonempty.
Qed.

(** Cutting the redacted text into lines gives the redacted lines. *)
Lemma Split_redactConfig (raw : string) :
  Split (redactConfig raw) newline = map redactedLine (Split raw newline).
Proof.
  unfold redactConfig.
  set (ls := Split raw newline).
  assert (Hne : map redactedLine ls <> []).
  { pose proof (Split_lines_nonempty raw) as H. fold ls in H.
    destruct ls; [congruence|discriminate]. }
  assert (Hfree : Forall (fun e => hasByte e lf = false) (map redactedLine ls)).
  { apply Forall_map. eapply Forall_impl; [|apply Split_lines_free].
    intros l Hl. now apply redactedLine_free. }
  rewrite newline_sep1, SplitFacts.Split_sep1.
  rewrite (SplitFacts.genSplit_Join lf _ Hne Hfree "" eq_refl).
  destruct (map redactedLine ls); [congruence|reflexivity].
Qed.

(** Redacting a text is redacting its lines: the text before a line
    break and the text after it are redacted apart. *)
Lemma redactConfig_app (a r : string) :
  redactConfig (a ++ newline ++ r)
  = redactConfig a ++ newline ++ redactConfig r.
Proof.
  unfold redactConfig. rewrite newline_sep1, !SplitFacts.Split_sep1.
  cbn [sep1 append]. rewrite SplitFacts.genSplit_app, map_app.
  rewrite SplitFacts.Join_app; [reflexivity| |].
  - pose proof (SplitFacts.genSplit_nonempty lf a "") as H.
    destruct (genSplit _ 0 "" a); [congruence|discriminate].
  - pose proof (SplitFacts.genSplit_nonempty lf r "") as H.
    destruct (genSplit _ 0 "" r); [congruence|discriminate].
Qed.

Lemma redactConfig_single (l : string) :
  hasByte l lf = false -> redactConfig l = redactedLine l.
Proof.
  intros Hl. unfold redactConfig.
  rewrite newline_sep1, SplitFacts.Split_sep1.
  now rewrite SplitFacts.genSplit_free.
Qed.

Lemma redactedLine_idempotent (l : string) :
  redactedLine (redactedLine l) = redactedLine l.
Proof.
  destruct (RedactFacts.redactedLine_cases l) as [Heq|(n & k & Hk & ->)];
    [now rewrite !Heq|].
  exact (RedactFacts.redactedLine_key n "" k
           (" " ++ dquote ++ "REDACTED" ++ dquote)
           Blank_empty eq_refl Hk).
Qed.

(** X15: [redactConfig] works line by line and keeps the lines apart:
    the redacted text has as many lines as the text, and its lines are
    the redacted lines of the text, in order. *)
Theorem redactConfig_line_by_line (raw : string) :
  Split (redactConfig raw) newline = map redactedLine (Split raw newline)
  /\ List.length (Split (redactConfig raw) newline)
     = List.length (Split raw newline)
  /\ forall a r,
      raw = a ++ newline ++ r ->
      redactConfig raw = redactConfig a ++ newline ++ redactConfig r.
Proof.
  split; [apply Split_redactConfig|]. split.
  - now rewrite Split_redactConfig, length_map.
  - intros a r ->. apply redactConfig_app.
Qed.

(** Only the line of the key is rewritten: a value written on the
    line after its key, as a block scalar is, is kept. *)
Lemma redactConfig_next_line_kept :
  redactConfig Samples.blockScalar
  = "password" ++ mask ++ newline ++ "  hunter2".
Proof. reflexivity. Qed.

(** X16: a line made of spaces, possibly other white space that does
    not start with a space, one of the keys token, password and apiKey,
    a colon and anything, is replaced by the spaces, the key and the
    fixed mask, whatever follows the colon on that line and at whatever
    line of the text it stands: the line of the same number of the
    redacted text is that replacement.  For a text written out around
    such a line, this holds when the line is the whole text, its first
    line, its last line or a line in between, the text before and after
    it being redacted apart.  White space other than the leading spaces
    is dropped from the indentation.  Nothing is said of the other
    lines here. *)
Theorem redactConfig_masks_value
    (n : nat) (ws k v : string)
    (Hws : Blank ws) (Hsp : HasPrefix ws " " = false) (Hk : In k keys) :
  let line := spaces n ++ ws ++ k ++ ":" ++ v in
  let masked := spaces n ++ k ++ mask in
  (forall raw i,
      nth_error (Split raw newline) i = Some line ->
      nth_error (Split (redactConfig raw) newline) i = Some masked)
  /\ (hasByte ws lf = false -> hasByte v lf = false ->
      redactConfig line = masked
      /\ (forall r,
            redactConfig (line ++ newline ++ r)
            = masked ++ newline ++ redactConfig r)
      /\ (forall a,
            redactConfig (a ++ newline ++ line)
            = redactConfig a ++ newline ++ masked)
      /\ (forall a r,
            redactConfig (a ++ newline ++ line ++ newline ++ r)
            = redactConfig a ++ newline ++ masked
              ++ newline ++ redactConfig r)).
Proof.
  intros line masked.
  assert (Hred : redactedLine line = masked)
    by now apply RedactFacts.redactedLine_key.
  split.
  - intros raw i Hi.
    now rewrite Split_redactConfig, nth_error_map, Hi; cbn; rewrite Hred.
  - intros Hwl Hv.
    assert (Hline : redactConfig line = masked).
    { rewrite redactConfig_single; [exact Hred|]. unfold line.
      rewrite !SplitFacts.hasByte_app, RedactFacts.hasByte_spaces
        by discriminate.
      now rewrite Hwl, (key_free k Hk), Hv. }
    split; [exact Hline|]. split; [|split].
    + intros r. now rewrite redactConfig_app, Hline.
    + intros a. now rewrite redactConfig_app, Hline.
    + intros a r. now rewrite !redactConfig_app, Hline.
Qed.

(** X17: redacting twice is redacting once. *)
Theorem redactConfig_idempotent (raw : string) :
  redactConfig (redactConfig raw) = redactConfig raw.
Proof.
  unfold redactConfig at 1. rewrite Split_redactConfig, map_map.
  unfold redactConfig. f_equal.
  apply map_ext. apply redactedLine_idempotent.
Qed.

(** X18: a text none of whose lines starts, once trimmed, with one of
    the keys and a colon is returned as it is, byte for byte. *)
Theorem redactConfig_unchanged (raw : string)
    (Hnone : forall l k,
        In l (Split raw newline) -> In k keys ->
        HasPrefix (TrimSpace l) (k ++ ":") = false) :
  redactConfig raw = raw.
Proof.
  unfold redactConfig.
  rewrite (map_ext_in redactedLine (fun l => l)).
  - rewrite map_id, newline_sep1, SplitFacts.Split_sep1.
    apply SplitFacts.Join_genSplit.
  - intros l Hl. unfold redactedLine.
    pose proof (Hnone l "token" Hl ltac:(simpl; tauto)) as H1.
    pose proof (Hnone l "password" Hl ltac:(simpl; tauto)) as H2.
    pose proof (Hnone l "apiKey" Hl ltac:(simpl; tauto)) as H3.
    cbn [append] in H1, H2, H3. now rewrite H1, H2, H3.
Qed.

(** X19: only the first bytes of a line after its white space decide:
    a line whose first such byte is none of t, p and a is kept as it
    is, so a key that follows the dash of a list item, or a quote, is
    not redacted. *)
Theorem redactConfig_keeps_other_lines
    (pre r : string) (c : ascii)
    (Hpre : Blank pre) (Hc : isLead c = false)
    (Ht : c <> "t"%char) (Hp : c <> "p"%char) (Ha : c <> "a"%char)
    (Hfree : hasByte (pre ++ String c r) lf = false) :
  let line := pre ++ String c r in
  redactConfig line = line
  /\ forall a b,
      redactConfig (a ++ newline ++ line ++ newline ++ b)
      = redactConfig a ++ newline ++ line ++ newline ++ redactConfig b.
Proof.
  intros line.
  assert (Hline : redactConfig line = line).
  { rewrite redactConfig_single by exact Hfree.
    pose proof (RedactFacts.TrimSpace_keeps_prefix pre (String c "") r Hpre
                  ltac:(discriminate)) as Hfirst.
    unfold noLead in Hfirst. cbn [list_ascii_of_string existsb] in Hfirst.
    rewrite Hc in Hfirst. specialize (Hfirst eq_refl).
    cbn [append] in Hfirst. fold line in Hfirst.
    unfold redactedLine.
    rewrite (RedactFacts.HasPrefix_other_first _ c "t" _ "oken:" Hfirst Ht).
    rewrite (RedactFacts.HasPrefix_other_first _ c "p" _ "assword:" Hfirst Hp).
    rewrite (RedactFacts.HasPrefix_other_first _ c "a" _ "piKey:" Hfirst Ha).
    reflexivity. }
  split; [exact Hline|].
  intros a b. now rewrite !redactConfig_app, Hline.
Qed.

End Redaction.

(** ** Addresses *)

Module AddrFacts.

Import strings.

Lemma len_nonneg (s : string) : 0 <= len s.
Proof. unfold len. lia. Qed.

Lemma len_cons (c : ascii) (s : string) : len (String c s) = len s + 1.
Proof. unfold len. cbn [String.length]. lia. Qed.

Lemma len_app (a r : string) : len (a ++ r) = len a + len r.
Proof. unfold len. rewrite SpaceFacts.length_append. lia. Qed.

Lemma Contains_byte (s : string) (c : ascii) :
  Contains s (sep1 c) = hasByte s c.
Proof.
  induction s as [|d s IH]; [reflexivity|].
  cbn [Contains hasByte]. now rewrite SplitFacts.HasPrefix_sep1, IH.
Qed.

Lemma IndexByte_found (s : string) (c : ascii) :
  (0 <=? IndexByte s c) = hasByte s c.
Proof.
  induction s as [|d s IH]; [reflexivity|]. cbn [IndexByte hasByte].
  destruct (Ascii.eqb d c); [reflexivity|]. cbn [orb]. rewrite <- IH.
  destruct (Z.ltb_spec (IndexByte s c) 0), (Z.leb_spec 0 (IndexByte s c));
    try lia; destruct (Z.leb_spec 0 (IndexByte s c + 1)); try lia; reflexivity.
Qed.

Lemma IndexByte_hit (a r : string) (c : ascii) :
  hasByte a c = false -> IndexByte (a ++ String c r) c = len a.
Proof.
  induction a as [|d a IH]; intros Ha.
  - cbn [append IndexByte]. now rewrite Ascii.eqb_refl.
  - cbn [hasByte] in Ha. apply orb_false_iff in Ha as [Hd Ha].
    cbn [append IndexByte]. rewrite Hd, (IH Ha), len_cons.
    pose proof (len_nonneg a).
    destruct (Z.ltb_spec (len a) 0); [lia|reflexivity].
Qed.

Lemma LastIndexByte_missing (s : string) (c : ascii) :
  (LastIndexByte s c <? 0) = negb (hasByte s c).
Proof.
  induction s as [|d s IH]; [reflexivity|]. cbn [LastIndexByte hasByte].
  destruct (Z.leb_spec 0 (LastIndexByte s c)) as [Hr|Hr].
  - destruct (Z.ltb_spec (LastIndexByte s c) 0); [lia|].
    cbn [negb] in IH. apply (f_equal negb) in IH.
    rewrite negb_involutive in IH. rewrite <- IH, orb_true_r.
    destruct (Z.ltb_spec (LastIndexByte s c + 1) 0); [lia|reflexivity].
  - destruct (Z.ltb_spec (LastIndexByte s c) 0); [|lia].
    apply (f_equal negb) in IH. rewrite negb_involutive in IH.
    rewrite <- IH, orb_false_r.
    now destruct (Ascii.eqb d c).
Qed.

Lemma LastIndexByte_hit (a r : string) (c : ascii) :
  hasByte r c = false -> LastIndexByte (a ++ String c r) c = len a.
Proof.
  intros Hr.
  assert (Hm : (LastIndexByte r c <? 0) = true)
    by now rewrite LastIndexByte_missing, Hr.
  apply Z.ltb_lt in Hm.
  induction a as [|d a IH].
  - cbn [append LastIndexByte].
    destruct (Z.leb_spec 0 (LastIndexByte r c)); [lia|].
    now rewrite Ascii.eqb_refl.
  - cbn [append LastIndexByte]. rewrite IH, len_cons.
    pose proof (len_nonneg a).
    destruct (Z.leb_spec 0 (len a)); [reflexivity|lia].
Qed.

Lemma drop_app (a r : string) : drop (String.length a) (a ++ r) = r.
Proof. induction a as [|c a IH]; [reflexivity|exact IH]. Qed.

Lemma from_app (a r : string) : from (a ++ r) (len a) = r.
Proof. unfold from, len. rewrite Nat2Z.id. apply drop_app. Qed.

Lemma slice_app (a r : string) : slice (a ++ r) 0 (len a) = a.
Proof.
  unfold slice, len. rewrite Z.sub_0_r, Nat2Z.id.
  apply RedactFacts.substring_app.
Qed.

Lemma plain_inv (s : string) :
  plain s = true ->
  hasByte s ":" = false /\ hasByte s "[" = false /\ hasByte s "]" = false.
Proof.
  unfold plain. intros H. apply negb_true_iff in H.
  apply orb_false_iff in H as [H H3]. apply orb_false_iff in H as [H1 H2].
  now repeat split.
Qed.

Lemma bracketFree_inv (s : string) :
  bracketFree s = true -> hasByte s "[" = false /\ hasByte s "]" = false.
Proof.
  unfold bracketFree. intros H. apply negb_true_iff in H.
  now apply orb_false_iff in H.
Qed.

Lemma HasPrefix_bracket (s : string) :
  hasByte s "[" = false -> HasPrefix s "[" = false.
Proof.
  destruct s as [|d s]; [reflexivity|]. cbn [hasByte HasPrefix].
  intros H. apply orb_false_iff in H as [Hd _]. now rewrite Hd.
Qed.

Lemma byteIs_first (s r : string) (c : ascii) :
  hasByte s c = false -> c <> ":"%char ->
  net.byteIs (s ++ String ":" r) 0 c = false.
Proof.
  intros Hs Hc. unfold net.byteIs. change (Z.to_nat 0) with 0%nat.
  destruct s as [|d s]; cbn [append String.get].
  - destruct (Ascii.eqb_spec ":" c); [congruence|reflexivity].
  - cbn [hasByte] in Hs. now apply orb_false_iff in Hs as [-> _].
Qed.

(** [SplitHostPort] on host:port without brackets. *)
Lemma SplitHostPort_plain (a p : string) :
  bracketFree a = true -> plain p = true ->
  net.SplitHostPort (a ++ ":" ++ p)
  = if hasByte a ":"
    then net.addrErr (a ++ ":" ++ p) net.tooManyColons
    else (a, p, None).
Proof.
  intros Ha Hp.
  apply bracketFree_inv in Ha as [Ha1 Ha2].
  apply plain_inv in Hp as (Hp0 & Hp1 & Hp2).
  unfold net.SplitHostPort. cbn [append].
  rewrite (LastIndexByte_hit a p ":" Hp0).
  pose proof (len_nonneg a).
  destruct (Z.ltb_spec (len a) 0); [lia|].
  rewrite (byteIs_first a p "[" Ha1) by discriminate.
  rewrite slice_app, IndexByte_found.
  destruct (hasByte a ":"); [reflexivity|].
  unfold net.splitTail.
  change (from (a ++ String ":" p) 0) with (a ++ String ":" p).
  rewrite !IndexByte_found, !SplitFacts.hasByte_app.
  cbn [hasByte]. rewrite Ha1, Ha2, Hp1, Hp2. cbn [orb Ascii.eqb Bool.eqb].
  replace (len a + 1) with (len (a ++ ":"))
    by (rewrite len_app; reflexivity).
  rewrite <- (from_app (a ++ ":") p) at 2.
  now rewrite SpaceFacts.append_assoc.
Qed.

(** [SplitHostPort] on [host]:port. *)
Lemma SplitHostPort_bracketed (a p : string) :
  bracketFree a = true -> plain p = true ->
  net.SplitHostPort ("[" ++ a ++ "]:" ++ p) = (a, p, None).
Proof.
  intros Ha Hp.
  apply bracketFree_inv in Ha as [Ha1 Ha2].
  apply plain_inv in Hp as (Hp0 & Hp1 & Hp2).
  pose proof (len_nonneg a). pose proof (len_nonneg p).
  set (hostport := "[" ++ a ++ "]:" ++ p).
  assert (H1 : hostport = ("[" ++ a ++ "]") ++ String ":" p).
  { unfold hostport. cbn [append]. now rewrite SpaceFacts.append_assoc. }
  assert (H2 : hostport = ("[" ++ a) ++ String "]" (":" ++ p)) by reflexivity.
  assert (Hi : LastIndexByte hostport ":" = len a + 2).
  { rewrite H1, (LastIndexByte_hit _ p ":" Hp0).
    cbn [append]. rewrite len_cons, len_app. change (len "]") with 1. lia. }
  assert (He : IndexByte hostport "]" = len a + 1).
  { rewrite H2, IndexByte_hit.
    - cbn [append]. now rewrite len_cons.
    - cbn [append hasByte]. now rewrite Ha2. }
  assert (Hlen : len hostport = len a + len p + 3).
  { rewrite H1, len_app. cbn [append]. rewrite !len_cons, len_app.
    change (len "]") with 1. lia. }
  unfold net.SplitHostPort. fold hostport. rewrite Hi, He.
  destruct (Z.ltb_spec (len a + 2) 0); [lia|].
  change (net.byteIs hostport 0 "[") with true. cbv iota.
  destruct (Z.ltb_spec (len a + 1) 0); [lia|].
  rewrite Hlen.
  destruct (Z.eqb_spec (len a + 1 + 1) (len a + len p + 3)); [lia|].
  destruct (Z.eqb_spec (len a + 1 + 1) (len a + 2)); [|lia].
  unfold net.splitTail.
  assert (Hhost : slice hostport 1 (len a + 1) = a).
  { unfold slice, hostport. replace (len a + 1 - 1) with (len a) by lia.
    change (Z.to_nat 1) with 1%nat. unfold len. rewrite Nat2Z.id.
    cbn [append substring]. apply RedactFacts.substring_app. }
  assert (Hj : from hostport 1 = a ++ "]:" ++ p) by reflexivity.
  assert (Hk : from hostport (len a + 1 + 1) = ":" ++ p).
  { replace (len a + 1 + 1) with (len ("[" ++ a ++ "]"))
      by (cbn [append]; rewrite len_cons, len_app; change (len "]") with 1;
          lia).
    rewrite H1. apply from_app. }
  assert (Hport : from hostport (len a + 2 + 1) = p).
  { replace (len a + 2 + 1) with (len ("[" ++ a ++ "]:")).
    - unfold hostport.
      replace ("[" ++ a ++ "]:" ++ p) with (("[" ++ a ++ "]:") ++ p).
      + apply from_app.
      + cbn [append]. now rewrite SpaceFacts.append_assoc.
    - cbn [append]. rewrite len_cons, len_app. change (len "]:") with 2.
      lia. }
  rewrite Hhost, Hj, Hk, Hport, !IndexByte_found, !SplitFacts.hasByte_app.
  cbn [append hasByte]. rewrite Ha1, Hp1, Hp2. reflexivity.
Qed.

(** A string with a colon ends in a colon and a part without one. *)
Lemma last_colon (s : string) :
  hasByte s ":" = true ->
  exists a p, s = a ++ ":" ++ p /\ hasByte p ":" = false.
Proof.
  induction s as [|d s IH]; [discriminate|]. cbn [hasByte]. intros H.
  destruct (hasByte s ":") eqn:Hs.
  - destruct (IH eq_refl) as (a & p & -> & Hp).
    exists (String d a), p. now split.
  - rewrite orb_false_r in H. apply Ascii.eqb_eq in H. subst d.
    exists "", s. now split.
Qed.

End AddrFacts.

Section Addresses.

Import strings.
Import web.

Lemma Contains_colon (s : string) : Contains s ":" = hasByte s ":".
Proof. exact (AddrFacts.Contains_byte s ":"). Qed.

Lemma hasByte_colon_app (a p : string) : hasByte (a ++ ":" ++ p) ":" = true.
Proof.
  rewrite SplitFacts.hasByte_app. cbn [append hasByte].
  rewrite Ascii.eqb_refl. apply orb_true_r.
Qed.

(** Without a colon [SplitHostPort] has no port to split off. *)
Lemma SplitHostPort_no_colon (h : string) :
  hasByte h ":" = false ->
  net.SplitHostPort h = net.addrErr h net.missingPort.
Proof.
  intros Hh. unfold net.SplitHostPort.
  now rewrite AddrFacts.LastIndexByte_missing, Hh.
Qed.

Lemma webUIAddr_eq (h : string) :
  webUIAddr h
  = let baseHost :=
      if hasByte h ":" then
        match net.SplitHostPort h with
        | (parsed, _, None) => parsed
        | (_, _, Some _) => h
        end
      else h in
    (if hasByte baseHost ":" && negb (HasPrefix baseHost "[")
     then "[" ++ baseHost ++ "]" else baseHost) ++ ":4040".
Proof. unfold webUIAddr. now rewrite !Contains_colon. Qed.

Lemma webUIAddr_no_colon (h : string) :
  hasByte h ":" = false -> webUIAddr h = h ++ ":4040".
Proof.
  intros Hh. rewrite webUIAddr_eq. cbv zeta. now rewrite !Hh.
Qed.

Lemma webUIAddr_host_port (a p : string) :
  plain a = true -> plain p = true ->
  webUIAddr (a ++ ":" ++ p) = a ++ ":4040".
Proof.
  intros Ha Hp. destruct (AddrFacts.plain_inv a Ha) as (Ha0 & Ha1 & Ha2).
  rewrite webUIAddr_eq. cbv zeta.
  rewrite hasByte_colon_app.
  rewrite AddrFacts.SplitHostPort_plain, Ha0;
    [|unfold bracketFree; now rewrite Ha1, Ha2|exact Hp].
  now rewrite Ha0.
Qed.

Lemma webUIAddr_many_colons (a p : string) :
  bracketFree a = true -> hasByte a ":" = true -> plain p = true ->
  webUIAddr (a ++ ":" ++ p) = "[" ++ (a ++ ":" ++ p) ++ "]:4040".
Proof.
  intros Ha Hc Hp. destruct (AddrFacts.bracketFree_inv a Ha) as (Ha1 & Ha2).
  destruct (AddrFacts.plain_inv p Hp) as (Hp0 & Hp1 & Hp2).
  rewrite webUIAddr_eq. cbv zeta.
  rewrite hasByte_colon_app.
  rewrite AddrFacts.SplitHostPort_plain, Hc by assumption.
  unfold net.addrErr.
  rewrite hasByte_colon_app, AddrFacts.HasPrefix_bracket.
  - cbn [andb negb]. now rewrite !SpaceFacts.append_assoc.
  - rewrite SplitFacts.hasByte_app. cbn [append hasByte].
    now rewrite Ha1, Hp1.
Qed.

Lemma webUIAddr_bracketed (a p : string) :
  bracketFree a = true -> plain p = true ->
  webUIAddr ("[" ++ a ++ "]:" ++ p)
  = (if hasByte a ":" then "[" ++ a ++ "]" else a) ++ ":4040".
Proof.
  intros Ha Hp. destruct (AddrFacts.bracketFree_inv a Ha) as (Ha1 & Ha2).
  rewrite webUIAddr_eq. cbv zeta.
  assert (Hc : hasByte ("[" ++ a ++ "]:" ++ p) ":" = true).
  { cbn [append hasByte]. rewrite SplitFacts.hasByte_app. cbn [hasByte].
    rewrite Ascii.eqb_refl. cbn [orb]. now rewrite !orb_true_r. }
  rewrite Hc.
  rewrite AddrFacts.SplitHostPort_bracketed by assumption.
  rewrite (AddrFacts.HasPrefix_bracket a Ha1).
  now destruct (hasByte a ":").
Qed.

(** X20: the two places that make an address agree: the base URL for
    a request is the scheme, http without and https with a TLS state,
    followed by the address [webUIAddr] makes of the same host when
    the port is the port of the web pages. *)
Theorem triggerBaseURL_as_webUIAddr (h : string) (tls : option ConnectionState) :
  triggerBaseURL {| Host := h; TLS := tls |} webUIPort
  = (match tls with Some _ => "https" | None => "http" end)
    ++ "://" ++ webUIAddr h.
Proof.
  rewrite webUIAddr_eq. unfold triggerBaseURL. cbn [Host TLS]. cbv zeta.
  rewrite !Contains_colon.
  destruct (hasByte h ":") eqn:Hh; [reflexivity|].
  now rewrite (SplitHostPort_no_colon h Hh).
Qed.

(** X21: a port in the host is replaced, not added to: for a host and
    a port without colon or bracket, host:port becomes the host with
    the port of the web pages, and the base URL for a request to
    host:port carries the configured port. *)
Theorem webUIAddr_replaces_port (a p : string)
    (Ha : plain a = true) (Hp : plain p = true) :
  webUIAddr (a ++ ":" ++ p) = a ++ ":4040"
  /\ webUIAddr a = a ++ ":4040"
  /\ forall tls port,
      triggerBaseURL {| Host := a ++ ":" ++ p; TLS := tls |} port
      = (match tls with Some _ => "https" | None => "http" end)
        ++ "://" ++ a ++ ":" ++ fmt_d port.
Proof.
  destruct (AddrFacts.plain_inv a Ha) as (Ha0 & Ha1 & Ha2).
  split; [now apply webUIAddr_host_port|].
  split; [now apply webUIAddr_no_colon|].
  intros tls port. unfold triggerBaseURL. cbn [Host TLS].
  rewrite AddrFacts.SplitHostPort_plain, Ha0;
    [|unfold bracketFree; now rewrite Ha1, Ha2|exact Hp].
  now rewrite Contains_colon, Ha0.
Qed.

(** X22: an IPv6 address comes out in brackets.  For an address with a
    colon and no bracket: written in brackets with a port, the port is
    replaced; written bare with two colons or more, it is put in
    brackets whole, what follows its last colon not being taken for a
    port. *)
Theorem webUIAddr_brackets_ipv6 (a p : string)
    (Ha : bracketFree a = true) (Hc : hasByte a ":" = true)
    (Hp : plain p = true) :
  webUIAddr ("[" ++ a ++ "]:" ++ p) = "[" ++ a ++ "]:4040"
  /\ webUIAddr (a ++ ":" ++ p) = "[" ++ (a ++ ":" ++ p) ++ "]:4040".
Proof.
  split.
  - rewrite webUIAddr_bracketed, Hc by assumption.
    cbn [append]. now rewrite !SpaceFacts.append_assoc.
  - now apply webUIAddr_many_colons.
Qed.

(** X23: on a host without brackets [webUIAddr] is idempotent: the
    address it returns is an address it returns unchanged. *)
Theorem webUIAddr_idempotent (h : string) (Hh : bracketFree h = true) :
  webUIAddr (webUIAddr h) = webUIAddr h.
Proof.
  destruct (AddrFacts.bracketFree_inv h Hh) as (Hh1 & Hh2).
  assert (H4040 : plain "4040" = true) by reflexivity.
  destruct (hasByte h ":") eqn:Hc.
  - destruct (AddrFacts.last_colon h Hc) as (a & p & -> & Hp0).
    rewrite SplitFacts.hasByte_app in Hh1, Hh2.
    cbn [append hasByte] in Hh1, Hh2.
    apply orb_false_iff in Hh1 as [Ha1 Hp1].
    apply orb_false_iff in Hh2 as [Ha2 Hp2].
    cbn [Ascii.eqb Bool.eqb orb] in Hp1, Hp2.
    assert (Hp : plain p = true) by (unfold plain; now rewrite Hp0, Hp1, Hp2).
    assert (Ha : bracketFree a = true)
      by (unfold bracketFree; now rewrite Ha1, Ha2).
    destruct (hasByte a ":") eqn:Hac.
    + rewrite (webUIAddr_many_colons a p Ha Hac Hp).
      change ("[" ++ (a ++ ":" ++ p) ++ "]:4040")
        with ("[" ++ (a ++ ":" ++ p) ++ "]:" ++ "4040").
      rewrite webUIAddr_bracketed, hasByte_colon_app;
        [|exact Hh|exact H4040].
      cbn [append]. now rewrite !SpaceFacts.append_assoc.
    + assert (Hpa : plain a = true)
        by (unfold plain; now rewrite Hac, Ha1, Ha2).
      rewrite (webUIAddr_host_port a p Hpa Hp).
      exact (webUIAddr_host_port a "4040" Hpa H4040).
  - assert (Hph : plain h = true) by (unfold plain; now rewrite Hc, Hh1, Hh2).
    rewrite (webUIAddr_no_colon h Hc).
    exact (webUIAddr_host_port h "4040" Hph H4040).
Qed.

End Addresses.

(** ** More on the client identifier *)

Section IdentityMore.

Context {C : Collaborators}.

Lemma TrimPrefix_absent (s p : string) :
  strings.HasPrefix s p = false -> strings.TrimPrefix s p = s.
Proof. intros H. unfold strings.TrimPrefix. now rewrite H. Qed.

(** X24: a host and the same host behind ["www."] get the same
    identifier: when two URLs parse, the host of the second being
    ["www."] followed by the host of the first, which does not itself
    start with ["www."], [defaultClientIdentifier] returns the same
    string for both. *)
Theorem defaultClientIdentifier_www_agnostic
    (raw1 raw2 : string) (u1 u2 : url_URL)
    (H1 : url_Parse raw1 = inl u1) (H2 : url_Parse raw2 = inl u2)
    (Hwww : Host u2 = "www." ++ Host u1)
    (Hbare : strings.HasPrefix (Host u1) "www." = false) :
  defaultClientIdentifier raw1 = defaultClientIdentifier raw2.
Proof.
  unfold defaultClientIdentifier. rewrite H1, H2, Hwww.
  rewrite TrimPrefix_app, (TrimPrefix_absent _ _ Hbare).
  change (String.eqb ("www." ++ Host u1) "") with false. cbv iota.
  now destruct (String.eqb (Host u1) "").
Qed.

End IdentityMore.

(** ** The further theorems on concrete inputs *)

Module MoreChecks.

Import Demo.

Lemma getScanLibrary_nested_roots_witness :
  In data (libraries (mkTarget [data; movies]))
  /\ strings.HasPrefix (Path movies) (Path data) = true
  /\ In movies (fst (getScanLibrary (mkTarget [data; movies]) inception))
  /\ In data (fst (getScanLibrary (mkTarget [data; movies]) inception)).
Proof.
  assert (Hout : In data (libraries (mkTarget [data; movies])))
    by (simpl; tauto).
  assert (Hin : In movies (fst (getScanLibrary (mkTarget [data; movies])
                                  inception)))
    by (simpl; tauto).
  split; [exact Hout|]. split; [reflexivity|]. split; [exact Hin|].
  exact (getScanLibrary_nested_roots (mkTarget [data; movies]) inception
           data movies Hout eq_refl Hin).
Defined.

Lemma Scan_result_tells_triggers_witness :
  let st := start (mkWorld "1.32.5" shelf [5]) in
  let out := Scan (mkTarget shelf) {| autoscan.Folder := inception |} st in
  fst out = Some unavailable
  /\ exists pre L post w1,
      [movies; data; everything] = (pre ++ L :: post)%list
      /\ allSucceed client inception pre (remote st) = Some w1
      /\ api_Scan client inception (ID L) w1
         = (Some unavailable, remote (snd out))
      /\ triggers (events (snd out))
         = map (fun l => (inception, ID l)) (pre ++ [L])%list.
Proof.
  intros st out. split; [reflexivity|].
  exact (proj2 (Scan_result_tells_triggers (mkTarget shelf)
                  {| autoscan.Folder := inception |} st)
           unavailable eq_refl).
Defined.

Lemma New_success_witness :
  exists t,
    fst (New cfg (start current)) = (Some t, None)
    /\ libraries t = [movies; tv]
    /\ List.length (events (snd (New cfg (start current)))) = 4%nat.
Proof.
  destruct (New_success cfg (start current) (applyRules [])
              (5 * time.Second) "1.32.5" current current [movies; tv]
              eq_refl eq_refl eq_refl eq_refl eq_refl) as (H1 & _ & H3).
  eexists. split; [exact H1|]. split; [reflexivity|].
  rewrite H3. reflexivity.
Defined.

Lemma New_remote_error_verbatim_witness :
  fst (New Scripted.cfg (Scripted.start Scripted.noVersion))
  = (None, Some Scripted.refused)
  /\ fst (New Scripted.cfg (Scripted.start Scripted.noCatalog))
     = (None, Some Scripted.refused).
Proof.
  split.
  - destruct (New_remote_error_verbatim (C := Scripted.service) Scripted.cfg
                (Scripted.start Scripted.noVersion) (applyRules []) 0
                eq_refl eq_refl) as [Hv _].
    exact (proj1 (Hv "" Scripted.refused Scripted.noVersion eq_refl)).
  - destruct (New_remote_error_verbatim (C := Scripted.service) Scripted.cfg
                (Scripted.start Scripted.noCatalog) (applyRules []) 0
                eq_refl eq_refl) as [_ Hl].
    exact (proj1 (Hl "1.32.5" Scripted.noCatalog [] Scripted.refused
                    Scripted.noCatalog eq_refl eq_refl eq_refl)).
Defined.

Lemma isSupportedVersion_ignores_rest_witness :
  isSupportedVersion "1.32.5.7349-8f4248874" = isSupportedVersion "1.32"
  /\ isSupportedVersion "1.32" = true.
Proof.
  split; [|reflexivity].
  exact (isSupportedVersion_ignores_rest "1" "32" "5.7349-8f4248874"
           eq_refl eq_refl).
Defined.

Lemma isSupportedVersion_compares_numbers_witness :
  isSupportedVersion "01.020" = true
  /\ isSupportedVersion "1.9" = false.
Proof.
  split.
  - apply (isSupportedVersion_compares_numbers "01" "020");
      [discriminate|reflexivity|discriminate|reflexivity|].
    right. split; [reflexivity|discriminate].
  - destruct (isSupportedVersion "1.9") eqn:H; [|reflexivity].
    apply (isSupportedVersion_compares_numbers "1" "9") in H;
      [|discriminate|reflexivity|discriminate|reflexivity].
    destruct H as [H|[_ H]]; exfalso; apply H; reflexivity.
Defined.

Lemma isSupportedVersion_rejects_bad_first_byte_witness :
  isSupportedVersion "v2.0.0" = false /\ isSupportedVersion " 2.0.0" = false.
Proof.
  split.
  - apply isSupportedVersion_rejects_bad_first_byte;
      [reflexivity|discriminate|discriminate].
  - apply isSupportedVersion_rejects_bad_first_byte;
      [reflexivity|discriminate|discriminate].
Defined.

Lemma not_Blank_space_5s : ~ Blank " 5s".
Proof.
  intros H. apply SpaceFacts.TrimSpace_empty_iff in H. discriminate H.
Qed.

Lemma parseTimeout_rejects_bad_first_byte_witness :
  parseTimeout "5s" = (5000000000, None)
  /\ exists e, parseTimeout " 5s" = (0, Some e).
Proof.
  split; [reflexivity|]. eexists.
  apply parseTimeout_rejects_bad_first_byte;
    [exact not_Blank_space_5s|reflexivity|discriminate|discriminate
    |discriminate].
Defined.

Lemma redactConfig_masks_value_witness :
  nth_error (strings.Split (web.redactConfig Samples.config) web.newline) 2
  = Some ("    token" ++ mask)
  /\ nth_error
       (strings.Split (web.redactConfig Samples.blockScalar) web.newline) 0
     = Some ("password" ++ mask)
  /\ web.redactConfig (Samples.tab ++ "password:" ++ " hunter2")
     = "password" ++ mask
  /\ web.redactConfig
       ("plex:" ++ web.newline ++ Samples.tab ++ "password:" ++ " hunter2")
     = "plex:" ++ web.newline ++ "password" ++ mask.
Proof.
  assert (Hb : Blank Samples.tab)
    by (apply SpaceFacts.TrimSpace_empty_iff; reflexivity).
  split; [|split].
  - exact (proj1 (redactConfig_masks_value 4 "" "token" " abc"
                    Blank_empty eq_refl (or_introl eq_refl))
             Samples.config 2%nat eq_refl).
  - exact (proj1 (redactConfig_masks_value 0 "" "password" " |"
                    Blank_empty eq_refl (or_intror (or_introl eq_refl)))
             Samples.blockScalar 0%nat eq_refl).
  - destruct (proj2 (redactConfig_masks_value 0 Samples.tab "password"
                       " hunter2" Hb eq_refl
                       (or_intror (or_introl eq_refl)))
                eq_refl eq_refl) as (Hline & _ & Hlast & _).
    split; [exact Hline|exact (Hlast "plex:")].
Defined.

Lemma redactConfig_unchanged_witness :
  web.redactConfig Samples.harmless = Samples.harmless.
Proof.
  apply redactConfig_unchanged.
  intros l k Hl Hk. simpl in Hl, Hk.
  destruct Hl as [<-|[<-|[]]]; destruct Hk as [<-|[<-|[<-|[]]]];
    reflexivity.
Defined.

Lemma redactConfig_keeps_other_lines_witness :
  web.redactConfig "  - token: abc" = "  - token: abc".
Proof.
  assert (Hb : Blank "  ") by (apply (RedactFacts.Blank_spaces 2)).
  destruct (redactConfig_keeps_other_lines "  " " token: abc" "-"
              Hb eq_refl ltac:(discriminate) ltac:(discriminate)
              ltac:(discriminate) eq_refl) as [Hline _].
  exact Hline.
Defined.

Lemma webUIAddr_replaces_port_witness :
  web.webUIAddr "example.com:8080" = "example.com:4040"
  /\ web.triggerBaseURL
       {| web.Host := "example.com:8080";
          web.TLS := Some web.connectionState |} 3030
     = "https://example.com:3030".
Proof.
  destruct (webUIAddr_replaces_port "example.com" "8080" eq_refl eq_refl)
    as (H1 & _ & H3).
  split; [exact H1|]. exact (H3 (Some web.connectionState) 3030).
Defined.

Lemma webUIAddr_brackets_ipv6_witness :
  web.webUIAddr "[::1]:3030" = "[::1]:4040"
  /\ web.webUIAddr "::1" = "[::1]:4040".
Proof.
  split.
  - exact (proj1 (webUIAddr_brackets_ipv6 "::1" "3030"
                    eq_refl eq_refl eq_refl)).
  - exact (proj2 (webUIAddr_brackets_ipv6 ":" "1" eq_refl eq_refl eq_refl)).
Defined.

Lemma webUIAddr_idempotent_witness :
  web.webUIAddr (web.webUIAddr "::1") = "[::1]:4040"
  /\ web.webUIAddr (web.webUIAddr "localhost") = "localhost:4040".
Proof.
  split.
  - rewrite (webUIAddr_idempotent "::1" eq_refl). reflexivity.
  - rewrite (webUIAddr_idempotent "localhost" eq_refl). reflexivity.
Defined.

Lemma defaultClientIdentifier_www_agnostic_witness :
  defaultClientIdentifier "http://example.com:32400"
  = defaultClientIdentifier "http://www.example.com:32400"
  /\ defaultClientIdentifier "http://example.com:32400"
     = "autoscan-example.com:32400".
Proof.
  split; [|reflexivity].
  exact (defaultClientIdentifier_www_agnostic (C := service)
           "http://example.com:32400" "http://www.example.com:32400"
           {| Scheme := "http"; Host := "example.com:32400"; UrlPath := "" |}
           {| Scheme := "http"; Host := "www.example.com:32400";
              UrlPath := "" |}
           eq_refl eq_refl eq_refl eq_refl).
Defined.

End MoreChecks.
